(** * boids-sfml: the flock engine of [src/flock/flock.cpp]

    A shallow embedding of [class Flock]: its constructor, the neighbour
    search, one simulation step ([evolve], [evolve_predator]) and the
    statistics, followed by the properties the specification states about
    them.

    Conventions of the embedding.
    - C++ [double] and [float] are idealised as the real numbers [R]; the
      rounding of IEEE arithmetic is not modelled.  A floating-point division
      whose divisor is zero has no real value: it is modelled as [None].
    - [int] is [Z]; [unsigned int] is [Z] reduced modulo [2^32].
    - [std::vector<Bird>] is [list Bird], read with [!!] and updated in place
      with [alter].
    - A non-[const] method is a computation in the state monad over [Flock];
      a reference [Bird&] into [birds_] is the index of that element, so that
      every read through the reference sees the writes made before it.
    - [flock.hpp], [rules.hpp] and [vectors.hpp] are not part of the sources
      at hand.  The functions they declare are the fields of the class
      [Rules]; the model is parametric in them. *)

From Stdlib Require Import Reals Lra ZArith Lia.
From stdpp Require Import base option list.

#[local] Open Scope R_scope.

(** ** Scalars *)

#[global] Instance Rlt_decision : RelDecision Rlt := Rlt_dec.
#[global] Instance Rgt_decision : RelDecision Rgt := Rgt_dec.
#[global] Instance Rle_decision : RelDecision Rle := Rle_dec.
#[global] Instance Rge_decision : RelDecision Rge := Rge_dec.
#[global] Instance Req_decision : EqDecision R := Req_dec_T.

(** [a / b] on floating-point numbers: no real value when [b] is zero. *)
Definition fdiv (a b : R) : option R :=
  if decide (b = 0) then None else Some (a / b).

(** ** Vector2 and Bird *)

(** Modelled from the spec: [Vector2] is declared in [vectors.hpp], which is
    missing; a pair of scalar components with the accessors [x()] and [y()]
    that [flock.cpp] calls. *)
Record Vector2 : Type := mkVector2 { x : R; y : R }.

(** Modelled from the spec: [Vector2::operator+]. *)
Definition Vadd (a b : Vector2) : Vector2 := mkVector2 (x a + x b) (y a + y b).

(** Modelled from the spec: [Vector2::operator-]. *)
Definition Vsub (a b : Vector2) : Vector2 := mkVector2 (x a - x b) (y a - y b).

(** Modelled from the spec: [Vector2::operator*] by a scalar. *)
Definition Vscale (a : Vector2) (k : R) : Vector2 := mkVector2 (x a * k) (y a * k).

(** Modelled from the spec: [Vector2::operator/=] by a scalar, component by
    component. *)
Definition Vdiv (a : Vector2) (k : R) : option Vector2 :=
  vx ← fdiv (x a) k; vy ← fdiv (y a) k; Some (mkVector2 vx vy).

(** Modelled from the spec: [Vector2::magnitude], the Euclidean norm. *)
Definition magnitude (a : Vector2) : R := sqrt (x a * x a + y a * y a).

(** Modelled from the spec: [Bird] is declared in a missing header; a
    position and a velocity. *)
Record Bird : Type := mkBird { position : Vector2; velocity : Vector2 }.

(** [bird.velocity += dv] *)
Definition add_velocity (dv : Vector2) (bird : Bird) : Bird :=
  mkBird (position bird) (Vadd (velocity bird) dv).

(** [bird.position += bird.velocity * k] *)
Definition integrate (k : R) (bird : Bird) : Bird :=
  mkBird (Vadd (position bird) (Vscale (velocity bird) k)) (velocity bird).

(** ** The engine state *)

(** The aggregate that the constructor destructures, in the order of its
    structured binding. *)
Record FlockOptions : Type := mkFlockOptions {
  number : Z;
  separation : R;
  alignment : R;
  cohesion : R;
  distance : R;
  separation_distance : R;
  with_predator : bool;
  view_angle : R;
  canvas_height : R;
  canvas_width : R
}.

Record Flock : Type := mkFlock {
  separation_ : R;
  alignment_ : R;
  cohesion_ : R;
  distance_ : R;
  separation_distance_ : R;
  with_predator_ : bool;
  view_angle_ : R;
  canvas_height_ : R;
  canvas_width_ : R;
  birds_ : list Bird;
  predator_ : Bird
}.

Record Statistic : Type := mkStatistic {
  mean_velocity : Vector2;
  stdev_velocity : Vector2
}.

Definition set_birds_ (birds : list Bird) (fl : Flock) : Flock :=
  mkFlock (separation_ fl) (alignment_ fl) (cohesion_ fl) (distance_ fl)
    (separation_distance_ fl) (with_predator_ fl) (view_angle_ fl)
    (canvas_height_ fl) (canvas_width_ fl) birds (predator_ fl).

Definition set_predator_ (predator : Bird) (fl : Flock) : Flock :=
  mkFlock (separation_ fl) (alignment_ fl) (cohesion_ fl) (distance_ fl)
    (separation_distance_ fl) (with_predator_ fl) (view_angle_ fl)
    (canvas_height_ fl) (canvas_width_ fl) (birds_ fl) predator.

(** ** What the missing headers declare *)

(** The free functions of [rules.hpp] and [vectors.hpp] that [flock.cpp]
    calls, and the default-constructed [Bird] that [predator_] holds when no
    predator is configured.  A function taking [Bird&] returns the bird it
    leaves behind. *)
Class Rules : Type := mkRules {
  get_angle : Vector2 → Vector2 → R;
  apply_separation : list Bird → Bird → R → R → Vector2;
  apply_alignment : list Bird → Bird → R → Vector2;
  apply_cohesion : list Bird → Bird → R → Vector2;
  avoid_predator : list Bird → Bird → Z → Bird → R → R → Vector2;
  avoid_speeding : Bird → R → R → Bird;
  avoid_boundaries : Bird → R → R → Bird;
  Bird_default : Bird
}.

(** [std::mt19937] with [std::uniform_real_distribution<float>(a, b)]: a
    generator state and one draw, which returns the advanced state. *)
Class Random : Type := mkRandom {
  Gen : Type;
  uniform_real_distribution : R → R → Gen → R * Gen
}.

(** ** The state monad of the methods *)

Definition State (A : Type) : Type := Flock → A * Flock.

#[global] Instance State_ret : MRet State := λ A a fl, (a, fl).
#[global] Instance State_bind : MBind State :=
  λ A B k m fl, let '(a, fl') := m fl in k a fl'.

Definition get : State Flock := λ fl, (fl, fl).

(** A write to [predator_] through [this]. *)
Definition modify_predator (f : Flock → Bird → Bird) : State unit :=
  λ fl, (tt, set_predator_ (f fl (predator_ fl)) fl).

(** A write to [birds_[i]] through the reference [bird]. *)
Definition modify_bird (i : nat) (f : Flock → Bird → Bird) : State unit :=
  λ fl, (tt, set_birds_ (alter (f fl) i (birds_ fl)) fl).

Definition exec {A} (m : State A) (fl : Flock) : Flock := (m fl).2.
Definition eval {A} (m : State A) (fl : Flock) : A := (m fl).1.

(** ** The methods of [Flock] *)

Section Engine.
Context `{rules : Rules}.

(** [Flock::get_neighbors] (lines 45-60): a scan of [birds_] that pushes
    the accepted candidates, in order, onto a local vector. *)
Definition get_neighbors (bird : Bird) : State (list Bird) :=
  fl ← get;
  mret (foldl (λ neighbors other,
    let distance_between_birds :=
      magnitude (Vsub (position other) (position bird)) in
    if bool_decide (distance_between_birds < distance_ fl)
       && bool_decide (distance_between_birds > 0)
    then
      let angle :=
        get_angle (Vsub (position other) (position bird)) (velocity bird) in
      if bool_decide (angle < view_angle_ fl)
      then neighbors ++ [other] else neighbors
    else neighbors) [] (birds_ fl)).

(** [Flock::evolve_predator] (lines 62-76). *)
Definition evolve_predator : State unit :=
  fl ← get;
  if negb (with_predator_ fl) then mret tt else
  neighbors ← get_neighbors (predator_ fl);
  (if negb (length neighbors =? 0)%nat then
     modify_predator (λ fl predator, add_velocity
       (apply_cohesion neighbors predator (cohesion_ fl * 2)) predator);;
     modify_predator (λ fl predator, add_velocity
       (apply_alignment neighbors predator (1 / 1000)) predator)
   else mret tt);;
  modify_predator (λ fl predator, avoid_speeding predator 15 2);;
  modify_predator (λ fl predator,
    avoid_boundaries predator (canvas_width_ fl) (canvas_height_ fl));;
  modify_predator (λ fl predator, integrate (8 / 10) predator).

(** The body of the lambda that [Flock::evolve] runs on the element at
    index [i] (lines 82-101), without the final [++counter]. *)
Definition evolve_bird (i : nat) (counter : Z) : State unit :=
  fl ← get;
  match birds_ fl !! i with
  | None => mret tt
  | Some bird =>
    neighbors ← get_neighbors bird;
    (if negb (length neighbors =? 0)%nat then
       modify_bird i (λ fl bird, add_velocity
         (apply_separation neighbors bird
            (separation_distance_ fl) (separation_ fl)) bird);;
       modify_bird i (λ fl bird, add_velocity
         (apply_alignment neighbors bird (alignment_ fl)) bird);;
       modify_bird i (λ fl bird, add_velocity
         (apply_cohesion neighbors bird (cohesion_ fl)) bird)
     else mret tt);;
    (if with_predator_ fl then
       modify_bird i (λ fl bird, add_velocity
         (avoid_predator (birds_ fl) bird counter (predator_ fl)
            (separation_distance_ fl) (view_angle_ fl)) bird)
     else mret tt);;
    modify_bird i (λ fl bird, avoid_speeding bird 5 2);;
    modify_bird i (λ fl bird,
      avoid_boundaries bird (canvas_width_ fl) (canvas_height_ fl));;
    modify_bird i (λ fl bird, integrate (9 / 10) bird)
  end.

(** [std::for_each(birds_.begin(), birds_.end(), ...)] of [Flock::evolve]:
    [n] elements are left, the next one is at index [i]; [counter] is the
    captured local, returned as it stands after the loop. *)
Fixpoint for_each_bird (n i : nat) (counter : Z) : State Z :=
  match n with
  | O => mret counter
  | S n' => evolve_bird i counter;; for_each_bird n' (S i) (counter + 1)%Z
  end.

(** [Flock::evolve] (lines 78-103). *)
Definition evolve : State unit :=
  evolve_predator;;
  fl ← get;
  for_each_bird (length (birds_ fl)) 0 0;;
  mret tt.

(** [Flock::size] (line 132): [birds_.size()] converted to
    [unsigned int]. *)
Definition size : State Z :=
  fl ← get; mret (Z.of_nat (length (birds_ fl)) `mod` 2 ^ 32)%Z.

(** [Flock::calculate_statistics] (lines 134-159).  The three divisions by
    [static_cast<float>(birds_.size())] are the only partial steps. *)
Definition calculate_statistics : State (option Statistic) :=
  fl ← get;
  let sum := foldl (λ sum bird, Vadd sum (velocity bird))
               (mkVector2 0 0) (birds_ fl) in
  let n := INR (length (birds_ fl)) in
  mret (
    mean_velocity ← Vdiv sum n;
    let '(stdev_x, stdev_y) :=
      foldl (λ '(stdev_x, stdev_y) bird,
        (stdev_x + (x (velocity bird) - x mean_velocity)
                   * (x (velocity bird) - x mean_velocity),
         stdev_y + (y (velocity bird) - y mean_velocity)
                   * (y (velocity bird) - y mean_velocity)))
        (0, 0) (birds_ fl) in
    stdev_x ← fdiv stdev_x n;
    stdev_y ← fdiv stdev_y n;
    Some (mkStatistic mean_velocity (mkVector2 (sqrt stdev_x) (sqrt stdev_y)))).

(** [k] calls of [evolve], one after the other. *)
Fixpoint steps (k : nat) : State unit :=
  match k with
  | O => mret tt
  | S k' => evolve;; steps k'
  end.

End Engine.

(** ** Construction *)

(** The two outcomes of [Flock::Flock]: the [assert] of lines 25-26 stops
    the program, or the object is built. *)
Inductive construction : Type :=
  | AssertionFailure
  | Constructed (fl : Flock).

Section Construction.
Context `{rules : Rules} `{random : Random}.

(** The generator lambda of lines 36-38; the braces evaluate the four
    draws from left to right. *)
Definition random_bird (canvas_width canvas_height : R) (gen : Gen)
  : Bird * Gen :=
  let '(px, gen) := uniform_real_distribution 0 canvas_width gen in
  let '(py, gen) := uniform_real_distribution 0 canvas_height gen in
  let '(vx, gen) := uniform_real_distribution (-5) 5 gen in
  let '(vy, gen) := uniform_real_distribution (-5) 5 gen in
  (mkBird (mkVector2 px py) (mkVector2 vx vy), gen).

(** [std::generate_n(back_inserter(birds), n, f)]. *)
Fixpoint generate_n (n : nat) (birds : list Bird) (f : Gen → Bird * Gen)
    (gen : Gen) : list Bird * Gen :=
  match n with
  | O => (birds, gen)
  | S n' => let '(bird, gen) := f gen in generate_n n' (birds ++ [bird]) f gen
  end.

(** [Flock::Flock] (lines 12-43); [gen] is the state of the freshly seeded
    [std::mt19937]. *)
Definition Flock_new (flock_options : FlockOptions) (gen : Gen)
  : construction :=
  let '(mkFlockOptions number separation alignment cohesion distance
          separation_distance with_predator view_angle canvas_height
          canvas_width) := flock_options in
  if bool_decide (number > 0)%Z && bool_decide (separation >= 0)
     && bool_decide (alignment >= 0) && bool_decide (cohesion >= 0)
     && bool_decide (distance >= 0) && bool_decide (separation_distance >= 0)
  then
    let '(birds, gen) :=
      generate_n (Z.to_nat number) []
        (random_bird canvas_width canvas_height) gen in
    let predator :=
      if with_predator
      then (random_bird canvas_width canvas_height gen).1
      else Bird_default in
    Constructed (mkFlock separation alignment cohesion distance
                   separation_distance with_predator view_angle
                   canvas_height canvas_width birds predator)
  else AssertionFailure.

End Construction.

(** ** Rendering *)

(** The colours of [sf::Color] that occur: the default fill of a shape and
    the two that [draw] sets. *)
Inductive Color : Type := White | Black | Red.

(** An [sf::CircleShape], as far as [draw] touches it: the two constructor
    arguments and the four attributes it sets or leaves at their defaults. *)
Record CircleShape : Type := mkCircleShape {
  shape_radius : R;
  shape_point_count : nat;
  shape_fill_color : Color;
  shape_origin : Vector2;
  shape_rotation : R;
  shape_position : Vector2
}.

(** [sf::CircleShape(radius, pointCount)]. *)
Definition CircleShape_new (radius : R) (point_count : nat) : CircleShape :=
  mkCircleShape radius point_count White (mkVector2 0 0) 0 (mkVector2 0 0).

Definition setFillColor (c : Color) (s : CircleShape) : CircleShape :=
  mkCircleShape (shape_radius s) (shape_point_count s) c (shape_origin s)
    (shape_rotation s) (shape_position s).

Definition setOrigin (o : Vector2) (s : CircleShape) : CircleShape :=
  mkCircleShape (shape_radius s) (shape_point_count s) (shape_fill_color s) o
    (shape_rotation s) (shape_position s).

Definition setRotation (angle : R) (s : CircleShape) : CircleShape :=
  mkCircleShape (shape_radius s) (shape_point_count s) (shape_fill_color s)
    (shape_origin s) angle (shape_position s).

Definition setPosition (p : Vector2) (s : CircleShape) : CircleShape :=
  mkCircleShape (shape_radius s) (shape_point_count s) (shape_fill_color s)
    (shape_origin s) (shape_rotation s) p.

(** An [sf::RenderWindow], as far as [draw] touches it: the shapes drawn so
    far, the oldest first; [window.draw(shape)] appends the shape as it is at
    the call. *)
Definition RenderWindow : Type := list CircleShape.

(** The accessors [x()], [y()], [vx()] and [vy()] of [Bird], declared in the
    missing header: the components of the position and of the velocity. *)
Definition Bird_x (bird : Bird) : R := x (position bird).
Definition Bird_y (bird : Bird) : R := y (position bird).
Definition Bird_vx (bird : Bird) : R := x (velocity bird).
Definition Bird_vy (bird : Bird) : R := y (velocity bird).

Section Rendering.
Context `{rules : Rules}.

(** The rotation that [draw] gives the triangle of [bird] (lines 112-116):
    the three [if]s run one after the other on the same local. *)
Definition draw_angle (bird : Bird) : R :=
  let angle :=
    get_angle (velocity bird) (mkVector2 0 1) * 180 / (31415 / 10000 * 5) in
  let angle :=
    if bool_decide (Bird_vx bird < 0) && bool_decide (Bird_vy bird < 0)
    then angle - 180 else angle in
  let angle :=
    if bool_decide (Bird_vx bird < 0) && bool_decide (Bird_vy bird > 0)
    then -90 - angle else angle in
  let angle :=
    if bool_decide (Bird_vx bird > 0) && bool_decide (Bird_vy bird < 0)
    then 180 - angle else angle in
  angle.

(** The [for] loop of [Flock::draw] (lines 110-121): [n] iterations are
    left, the next index is [i]; the one shape [tri] is set anew and drawn in
    every iteration. *)
Fixpoint draw_birds (n i : nat) (tri : CircleShape) (window : RenderWindow)
    : State (CircleShape * RenderWindow) :=
  match n with
  | O => mret (tri, window)
  | S n' =>
    fl ← get;
    match birds_ fl !! i with
    | None => mret (tri, window)
    | Some bird =>
      let tri := setRotation (draw_angle bird) tri in
      let tri := setPosition (mkVector2 (Bird_x bird) (Bird_y bird)) tri in
      draw_birds n' (S i) tri (window ++ [tri])
    end
  end.

(** [Flock::draw] (lines 105-130); the result is the window after the
    call. *)
Definition draw (window : RenderWindow) : State RenderWindow :=
  let tri := CircleShape_new 6 3 in
  let tri := setFillColor Black tri in
  let tri := setOrigin (mkVector2 3 3) tri in
  fl ← get;
  '(tri, window) ← draw_birds (length (birds_ fl)) 0 tri window;
  if with_predator_ fl then
    let bird := CircleShape_new 8 3 in
    let bird := setFillColor Red bird in
    let bird := setOrigin (mkVector2 4 4) bird in
    let bird :=
      setPosition (mkVector2 (Bird_x (predator_ fl)) (Bird_y (predator_ fl)))
        bird in
    mret (window ++ [bird])
  else mret window.

End Rendering.

(** Two engine states with the same nine configuration fields. *)
Definition same_configuration (fl fl' : Flock) : Prop :=
  separation_ fl' = separation_ fl ∧ alignment_ fl' = alignment_ fl
  ∧ cohesion_ fl' = cohesion_ fl ∧ distance_ fl' = distance_ fl
  ∧ separation_distance_ fl' = separation_distance_ fl
  ∧ with_predator_ fl' = with_predator_ fl ∧ view_angle_ fl' = view_angle_ fl
  ∧ canvas_height_ fl' = canvas_height_ fl
  ∧ canvas_width_ fl' = canvas_width_ fl.

(** A generator that keeps every draw within the bounds it is given, as
    [std::uniform_real_distribution] does. *)
Definition draws_within_bounds `{random : Random} : Prop :=
  ∀ a b gen, a <= b → a <= (uniform_real_distribution a b gen).1 <= b.

(** ** Reference definitions in the words of the specification *)

(** A valid configuration: a positive population size, and no negative rule
    weight or distance. *)
Definition valid_options (o : FlockOptions) : Prop :=
  (0 < number o)%Z ∧ 0 <= separation o ∧ 0 <= alignment o ∧ 0 <= cohesion o
  ∧ 0 <= distance o ∧ 0 <= separation_distance o.

Definition Rsum (l : list R) : R := foldr Rplus 0 l.

(** The arithmetic mean of a sample. *)
Definition arithmetic_mean (l : list R) : R := Rsum l / INR (length l).

(** The population variance of a sample: the sum of the squared deviations
    from the mean, divided by [N]. *)
Definition population_variance (l : list R) : R :=
  Rsum ((λ v, (v - arithmetic_mean l) * (v - arithmetic_mean l)) <$> l)
  / INR (length l).

(** The candidates that the specification's [find_neighbors] keeps. *)
Definition is_neighbor `{rules : Rules} (fl : Flock) (subject candidate : Bird)
  : Prop :=
  0 < magnitude (Vsub (position candidate) (position subject)) < distance_ fl
  ∧ get_angle (Vsub (position candidate) (position subject)) (velocity subject)
    < view_angle_ fl.

#[global] Instance is_neighbor_dec `{rules : Rules} fl subject candidate :
  Decision (is_neighbor fl subject candidate).
Proof. unfold is_neighbor. apply _. Defined.

(** The reference step of the specification: the predator moves first, then
    every agent is updated from the same frozen population, the one the step
    started with, and all the updates are committed together. *)
Definition evolve_snapshot `{rules : Rules} (fl : Flock) : Flock :=
  let snapshot := exec evolve_predator fl in
  set_birds_
    (imap (λ i bird,
       default bird (birds_ (exec (evolve_bird i (Z.of_nat i)) snapshot) !! i))
       (birds_ snapshot))
    snapshot.

(** The population that the in-place pass of [evolve] holds when it reaches
    index [i]: the agents before [i] as the step leaves them, the others as
    the step found them. *)
Definition population_at `{rules : Rules} (fl : Flock) (i : nat) : Flock :=
  set_birds_ (take i (birds_ (exec evolve fl)) ++ drop i (birds_ fl))
    (exec evolve_predator fl).

(** ** The rules as the specification describes them *)

Module SpecRules.

(** The zero vector, the sum and the mean of a list of vectors, which the
    descriptions of the rules rely on. *)
Definition Vzero : Vector2 := mkVector2 0 0.
Definition Vsum (l : list Vector2) : Vector2 := foldr Vadd Vzero l.
Definition Vmean (l : list Vector2) : Vector2 :=
  Vscale (Vsum l) (/ INR (length l)).

(** Modelled from the spec: [get_angle] of the missing [vectors.hpp], the
    unsigned angle by the dot-product and arc-cosine formula, and [0] when
    either vector has zero magnitude. *)
Definition get_angle (a b : Vector2) : R :=
  if decide (magnitude a = 0 ∨ magnitude b = 0) then 0
  else acos ((x a * x b + y a * y b) / (magnitude a * magnitude b)).

(** Modelled from the spec: [apply_separation] of the missing [rules.hpp];
    the vectors from each neighbour strictly closer than
    [separation_distance] to the subject, summed directly and weighted. *)
Definition apply_separation (neighbors : list Bird) (subject : Bird)
    (separation_distance weight : R) : Vector2 :=
  Vscale
    (Vsum ((λ n, Vsub (position subject) (position n)) <$>
           filter (λ n, magnitude (Vsub (position n) (position subject))
                        < separation_distance) neighbors))
    weight.

(** Modelled from the spec: [apply_alignment] of the missing [rules.hpp],
    [weight * (mean_neighbor_velocity - subject.velocity)]. *)
Definition apply_alignment (neighbors : list Bird) (subject : Bird)
    (weight : R) : Vector2 :=
  Vscale (Vsub (Vmean (velocity <$> neighbors)) (velocity subject)) weight.

(** Modelled from the spec: [apply_cohesion] of the missing [rules.hpp],
    [weight * (centroid - subject.position)]. *)
Definition apply_cohesion (neighbors : list Bird) (subject : Bird)
    (weight : R) : Vector2 :=
  Vscale (Vsub (Vmean (position <$> neighbors)) (position subject)) weight.

(** Modelled from the spec: [avoid_predator] of the missing [rules.hpp]; a
    repulsion away from a predator that is within the trigger distance and
    the view cone, zero otherwise. *)
Definition avoid_predator (population : list Bird) (subject : Bird)
    (subject_index : Z) (predator : Bird) (trigger_distance view_angle : R)
    : Vector2 :=
  let to_predator := Vsub (position predator) (position subject) in
  if bool_decide (magnitude to_predator < trigger_distance)
     && bool_decide (get_angle to_predator (velocity subject) < view_angle)
  then Vsub (position subject) (position predator)
  else Vzero.

(** Modelled from the spec: [avoid_speeding] of the missing [rules.hpp]; a
    speed above [max_speed] is rescaled to [max_speed], a speed below
    [min_speed] is rescaled up to [min_speed], and a zero velocity, which
    has no direction, is left as it is. *)
Definition avoid_speeding (bird : Bird) (max_speed min_speed : R) : Bird :=
  let speed := magnitude (velocity bird) in
  if bool_decide (speed > max_speed) then
    mkBird (position bird) (Vscale (velocity bird) (max_speed / speed))
  else if bool_decide (speed < min_speed) && bool_decide (speed ≠ 0) then
    mkBird (position bird) (Vscale (velocity bird) (min_speed / speed))
  else bird.

(** Modelled from the spec: [avoid_boundaries] of the missing [rules.hpp];
    a steering term towards the interior on each axis whose edge the
    position has passed.  The strength is left open by the spec and taken
    as [1]. *)
Definition avoid_boundaries (bird : Bird) (width height : R) : Bird :=
  let steer (p limit : R) : R :=
    if bool_decide (p < 0) then 1
    else if bool_decide (p > limit) then -1 else 0 in
  add_velocity
    (mkVector2 (steer (x (position bird)) width)
               (steer (y (position bird)) height))
    bird.

Definition rules : Rules :=
  mkRules get_angle apply_separation apply_alignment apply_cohesion
    avoid_predator avoid_speeding avoid_boundaries (mkBird Vzero Vzero).

End SpecRules.

(** ** Sample data *)

Module Samples.

(** A generator whose every draw from [[a, b]] is the midpoint; its state
    counts the draws. *)
Definition midpoint_random : Random :=
  mkRandom nat (λ a b gen, ((a + b) / 2, S gen)).

Definition options (number : Z) : FlockOptions :=
  mkFlockOptions number 1 1 1 10 5 false 1 1000 1000.

(** Two agents on a horizontal line, nine units apart, the first flying
    away from the second and the second flying towards the first. *)
Definition bird0 : Bird := mkBird (mkVector2 500 500) (mkVector2 (-3) 0).
Definition bird1 : Bird := mkBird (mkVector2 509 500) (mkVector2 (-4) 0).

Definition pair : Flock :=
  mkFlock 0 1 0 10 0 false 1 1000 1000 [bird0; bird1]
    (mkBird SpecRules.Vzero SpecRules.Vzero).

(** The same two agents with a predator configured. *)
Definition hunted : Flock :=
  mkFlock 0 1 0 10 0 true 1 1000 1000 [bird0; bird1]
    (mkBird (mkVector2 100 100) (mkVector2 3 0)).

Definition empty : Flock :=
  mkFlock 1 1 1 10 5 false 1 1000 1000 []
    (mkBird SpecRules.Vzero SpecRules.Vzero).

(** What [Flock_new (options 2)] builds from [midpoint_random]. *)
Definition centred : Bird :=
  mkBird (mkVector2 ((0 + 1000) / 2) ((0 + 1000) / 2))
         (mkVector2 ((-5 + 5) / 2) ((-5 + 5) / 2)).

Definition constructed : Flock :=
  mkFlock 1 1 1 10 5 false 1 1000 1000 [centred; centred]
    (mkBird SpecRules.Vzero SpecRules.Vzero).

(** One agent on its own, and the same agent with a predator far away. *)
Definition lone : Flock :=
  mkFlock 1 1 1 10 5 false 1 1000 1000 [bird0]
    (mkBird SpecRules.Vzero SpecRules.Vzero).

(** [pair] with a wider reach and a wider view. *)
Definition pair_wide : Flock :=
  mkFlock 0 1 0 20 0 false 2 1000 1000 [bird0; bird1]
    (mkBird SpecRules.Vzero SpecRules.Vzero).

(** [pair] with no reach at all. *)
Definition pair_blind : Flock :=
  mkFlock 0 1 0 0 0 false 1 1000 1000 [bird0; bird1]
    (mkBird SpecRules.Vzero SpecRules.Vzero).

(** [pair_blind] with a predator. *)
Definition hunted_blind : Flock :=
  mkFlock 0 1 0 0 0 true 1 1000 1000 [bird0; bird1]
    (mkBird (mkVector2 100 100) (mkVector2 3 0)).

(** Another configuration for two agents on the same canvas, with a
    predator, and what [Flock_new] builds for it from [midpoint_random]. *)
Definition options_hunted : FlockOptions :=
  mkFlockOptions 2 0 0 0 0 0 true 2 1000 1000.

Definition constructed_hunted : Flock :=
  mkFlock 0 0 0 0 0 true 2 1000 1000
    [mkBird (mkVector2 ((0 + 1000) / 2) ((0 + 1000) / 2))
            (mkVector2 ((-5 + 5) / 2) ((-5 + 5) / 2));
     mkBird (mkVector2 ((0 + 1000) / 2) ((0 + 1000) / 2))
            (mkVector2 ((-5 + 5) / 2) ((-5 + 5) / 2))]
    (mkBird (mkVector2 ((0 + 1000) / 2) ((0 + 1000) / 2))
            (mkVector2 ((-5 + 5) / 2) ((-5 + 5) / 2))).

(** [pair] with the two agents in the other order. *)
Definition pair_swapped : Flock :=
  mkFlock 0 1 0 10 0 false 1 1000 1000 [bird1; bird0]
    (mkBird SpecRules.Vzero SpecRules.Vzero).

(** The states that the two agents of [pair] reach: in place, and, for the
    second one, from the population the step started with. *)
Definition bird0_after : Bird :=
  mkBird (mkVector2 (4973 / 10) 500) (mkVector2 (-3) 0).
Definition bird1_after : Bird :=
  mkBird (mkVector2 (5054 / 10) 500) (mkVector2 (-4) 0).
Definition bird1_reference : Bird :=
  mkBird (mkVector2 (5063 / 10) 500) (mkVector2 (-3) 0).

End Samples.

(** * Properties *)

(** ** Running the monad *)

Ltac run_state :=
  unfold mbind, State_bind, mret, State_ret, get; cbn beta iota.

Lemma exec_bind {A B} (m : State A) (k : A → State B) (fl : Flock) :
  exec (m ≫= k) fl = exec (k (eval m fl)) (exec m fl).
Proof. unfold exec, eval, mbind, State_bind. by destruct (m fl). Qed.

Lemma eval_bind {A B} (m : State A) (k : A → State B) (fl : Flock) :
  eval (m ≫= k) fl = eval (k (eval m fl)) (exec m fl).
Proof. unfold exec, eval, mbind, State_bind. by destruct (m fl). Qed.

Lemma exec_ret {A} (a : A) (fl : Flock) : exec (mret a) fl = fl.
Proof. done. Qed.

Lemma exec_get (fl : Flock) : exec get fl = fl.
Proof. done. Qed.

Lemma eval_get (fl : Flock) : eval get fl = fl.
Proof. done. Qed.

Lemma exec_modify_bird i f fl :
  exec (modify_bird i f) fl = set_birds_ (alter (f fl) i (birds_ fl)) fl.
Proof. done. Qed.

Lemma exec_modify_predator f fl :
  exec (modify_predator f) fl = set_predator_ (f fl (predator_ fl)) fl.
Proof. done. Qed.

Lemma set_birds_same (fl : Flock) : set_birds_ (birds_ fl) fl = fl.
Proof. by destruct fl. Qed.

Lemma set_birds_twice l k (fl : Flock) :
  set_birds_ l (set_birds_ k fl) = set_birds_ l fl.
Proof. done. Qed.

(** ** Vectors *)

Lemma magnitude_nonneg (a : Vector2) : 0 <= magnitude a.
Proof. apply sqrt_pos. Qed.

Lemma magnitude_Vsub_diag (a : Vector2) : magnitude (Vsub a a) = 0.
Proof.
  unfold magnitude, Vsub; cbn.
  replace ((x a - x a) * (x a - x a) + (y a - y a) * (y a - y a)) with 0 by ring.
  apply sqrt_0.
Qed.

Lemma magnitude_horizontal (a : R) : magnitude (mkVector2 a 0) = Rabs a.
Proof.
  unfold magnitude; cbn.
  replace (a * a + 0 * 0) with (Rsqr a) by (unfold Rsqr; ring).
  apply sqrt_Rsqr_abs.
Qed.

Lemma magnitude_Vscale (a : Vector2) (k : R) :
  magnitude (Vscale a k) = Rabs k * magnitude a.
Proof.
  unfold magnitude, Vscale; cbn.
  replace (x a * k * (x a * k) + y a * k * (y a * k))
    with (Rsqr k * (x a * x a + y a * y a)) by (unfold Rsqr; ring).
  rewrite sqrt_mult_alt by apply Rle_0_sqr.
  by rewrite sqrt_Rsqr_abs.
Qed.

(** ** Neighbour discovery *)

Section Neighbours.
Context `{rules : Rules}.

Lemma scan_filter (fl : Flock) (bird : Bird) (l acc : list Bird) :
  foldl (λ neighbors other,
      let distance_between_birds :=
        magnitude (Vsub (position other) (position bird)) in
      if bool_decide (distance_between_birds < distance_ fl)
         && bool_decide (distance_between_birds > 0)
      then
        let angle :=
          get_angle (Vsub (position other) (position bird)) (velocity bird) in
        if bool_decide (angle < view_angle_ fl)
        then neighbors ++ [other] else neighbors
      else neighbors) acc l
  = acc ++ filter (is_neighbor fl bird) l.
Proof.
  revert acc. induction l as [|other l IH]; intros acc.
  - cbn. by rewrite app_nil_r.
  - rewrite filter_cons. cbn [foldl]. rewrite IH. cbn zeta.
    destruct (decide (is_neighbor fl bird other)) as [Hn|Hn].
    + destruct Hn as [[H1 H2] H3].
      rewrite !bool_decide_eq_true_2 by done. cbn. by rewrite <-app_assoc.
    + case_bool_decide; [case_bool_decide|]; cbn; [|done..].
      case_bool_decide; [|done]. destruct Hn. unfold is_neighbor.
      auto with real.
Qed.

Lemma get_neighbors_run (bird : Bird) (fl : Flock) :
  get_neighbors bird fl = (filter (is_neighbor fl bird) (birds_ fl), fl).
Proof. unfold get_neighbors. run_state. by rewrite scan_filter. Qed.

Lemma eval_get_neighbors (bird : Bird) (fl : Flock) :
  eval (get_neighbors bird) fl = filter (is_neighbor fl bird) (birds_ fl).
Proof. unfold eval. by rewrite get_neighbors_run. Qed.

Lemma exec_get_neighbors (bird : Bird) (fl : Flock) :
  exec (get_neighbors bird) fl = fl.
Proof. unfold exec. by rewrite get_neighbors_run. Qed.

(** The neighbour search reads [birds_], [distance_] and [view_angle_]
    only. *)
Lemma is_neighbor_ext (fl fl' : Flock) (subject candidate : Bird) :
  distance_ fl = distance_ fl' → view_angle_ fl = view_angle_ fl' →
  is_neighbor fl subject candidate ↔ is_neighbor fl' subject candidate.
Proof. unfold is_neighbor. by intros -> ->. Qed.

(** C1. [get_neighbors] returns, in population order, exactly the
    candidates whose Euclidean distance [d] from the subject satisfies
    [0 < d < distance_] and whose angle between
    [candidate.position - subject.position] and the subject's velocity is
    strictly below [view_angle_]; whatever the population, the subject is
    not among them. *)
Theorem get_neighbors_exact (fl : Flock) (subject : Bird) :
  eval (get_neighbors subject) fl
    = filter (is_neighbor fl subject) (birds_ fl)
  ∧ (∀ candidate,
       candidate ∈ eval (get_neighbors subject) fl ↔
       candidate ∈ birds_ fl
       ∧ (0 < magnitude (Vsub (position candidate) (position subject))
            < distance_ fl)
       ∧ get_angle (Vsub (position candidate) (position subject))
           (velocity subject) < view_angle_ fl)
  ∧ (subject ∉ eval (get_neighbors subject) fl)
  ∧ (∀ candidate,
       candidate ∈ eval (get_neighbors subject) fl →
       position candidate ≠ position subject).
Proof.
  rewrite eval_get_neighbors. split; [done|]. split; [|split].
  - intros candidate. rewrite list_elem_of_filter. unfold is_neighbor. tauto.
  - rewrite list_elem_of_filter. intros [[[Hpos _] _] _].
    rewrite magnitude_Vsub_diag in Hpos. lra.
  - intros candidate. rewrite list_elem_of_filter.
    intros [[[Hpos _] _] _] Heq. rewrite Heq, magnitude_Vsub_diag in Hpos. lra.
Qed.

End Neighbours.

(** ** Construction *)

Section ConstructionFacts.
Context `{rules : Rules} `{random : Random}.

Lemma generate_n_length (n : nat) (birds : list Bird) f (gen : Gen) :
  length (generate_n n birds f gen).1 = (length birds + n)%nat.
Proof.
  revert birds gen. induction n as [|n IH]; intros birds gen; cbn.
  - lia.
  - destruct (f gen) as [bird gen']. rewrite IH, length_app. cbn. lia.
Qed.

Lemma Flock_new_valid (o : FlockOptions) (gen : Gen) :
  valid_options o →
  Flock_new o gen =
    Constructed
      (mkFlock (separation o) (alignment o) (cohesion o) (distance o)
         (separation_distance o) (with_predator o) (view_angle o)
         (canvas_height o) (canvas_width o)
         (generate_n (Z.to_nat (number o)) []
            (random_bird (canvas_width o) (canvas_height o)) gen).1
         (if with_predator o
          then (random_bird (canvas_width o) (canvas_height o)
                  (generate_n (Z.to_nat (number o)) []
                     (random_bird (canvas_width o) (canvas_height o)) gen).2).1
          else Bird_default)).
Proof.
  destruct o as [n s a c d sd wp va h w]. unfold valid_options; cbn.
  intros (Hn & Hs & Ha & Hc & Hd & Hsd).
  rewrite !bool_decide_eq_true_2 by (lia || lra). cbn.
  by destruct (generate_n _ _ _ _).
Qed.

Lemma Flock_new_invalid (o : FlockOptions) (gen : Gen) :
  ¬ valid_options o → Flock_new o gen = AssertionFailure.
Proof.
  destruct o as [n s a c d sd wp va h w]. unfold valid_options; cbn.
  intros Hinv.
  repeat (case_bool_decide; cbn; [|done]).
  destruct Hinv. repeat split; lia || lra.
Qed.

(** C3. Construction fails, on the [assert] and at once, if and only if
    the population size is not positive or one of the three rule weights or
    of the two distances is negative; every other configuration constructs
    an engine that holds the supplied values unchanged. *)
Theorem Flock_new_fails_iff (o : FlockOptions) (gen : Gen) :
  (Flock_new o gen = AssertionFailure ↔
     (number o <= 0)%Z ∨ separation o < 0 ∨ alignment o < 0 ∨ cohesion o < 0
     ∨ distance o < 0 ∨ separation_distance o < 0)
  ∧ ((0 < number o)%Z ∧ 0 <= separation o ∧ 0 <= alignment o
     ∧ 0 <= cohesion o ∧ 0 <= distance o ∧ 0 <= separation_distance o ↔
     ∃ fl, Flock_new o gen = Constructed fl)
  ∧ (∀ fl, Flock_new o gen = Constructed fl →
       separation_ fl = separation o ∧ alignment_ fl = alignment o
       ∧ cohesion_ fl = cohesion o ∧ distance_ fl = distance o
       ∧ separation_distance_ fl = separation_distance o
       ∧ with_predator_ fl = with_predator o
       ∧ view_angle_ fl = view_angle o
       ∧ canvas_height_ fl = canvas_height o
       ∧ canvas_width_ fl = canvas_width o).
Proof.
  destruct (decide (valid_options o)) as [Hv|Hv].
  - pose proof (Flock_new_valid o gen Hv) as Hnew. rewrite Hnew.
    unfold valid_options in Hv. split; [|split].
    + split; [done|]. intros Hneg. exfalso.
      destruct Hneg as [?|[?|[?|[?|[?|?]]]]]; first [lia | lra].
    + split; [eauto|done].
    + intros fl [= <-]. by cbn.
  - pose proof (Flock_new_invalid o gen Hv) as Hnew. rewrite Hnew.
    unfold valid_options in Hv. split; [|split].
    + split; [|done]. intros _.
      destruct (decide (number o <= 0)%Z); [by left|right].
      destruct (decide (separation o < 0)); [by left|right].
      destruct (decide (alignment o < 0)); [by left|right].
      destruct (decide (cohesion o < 0)); [by left|right].
      destruct (decide (distance o < 0)); [by left|right].
      destruct (decide (separation_distance o < 0)); [done|].
      destruct Hv. repeat split; lia || lra.
    + split; [done|]. by intros [fl ?].
    + by intros fl.
Qed.

End ConstructionFacts.

(** ** One step *)

Section Step.
Context `{rules : Rules}.

Lemma alter_lookup_insert (f : Bird → Bird) (l : list Bird) i b :
  l !! i = Some b → alter f i l = <[i := f b]> l.
Proof.
  intros Hi. apply list_eq. intros j.
  destruct (decide (i = j)) as [<-|Hne].
  - rewrite list_lookup_alter_eq, Hi, list_lookup_insert_eq; [done|].
    by eapply lookup_lt_Some.
  - by rewrite list_lookup_alter_ne, list_lookup_insert_ne.
Qed.

Lemma modify_bird_insert i f fl b :
  birds_ fl !! i = Some b →
  exec (modify_bird i f) fl = set_birds_ (<[i := f fl b]> (birds_ fl)) fl.
Proof. intros Hi. rewrite exec_modify_bird. by erewrite alter_lookup_insert. Qed.

Lemma modify_bird_insert' i f fl l b :
  (i < length l)%nat →
  exec (modify_bird i f) (set_birds_ (<[i := b]> l) fl)
  = set_birds_ (<[i := f (set_birds_ (<[i := b]> l) fl) b]> l) fl.
Proof.
  intros Hi. erewrite modify_bird_insert.
  2:{ cbn. by apply list_lookup_insert_eq. }
  cbn. by rewrite list_insert_insert_eq.
Qed.

Lemma evolve_bird_run (i : nat) (counter : Z) (fl : Flock) (bird : Bird) :
  birds_ fl !! i = Some bird →
  let neighbors := filter (is_neighbor fl bird) (birds_ fl) in
  let bird1 :=
    if negb (length neighbors =? 0)%nat then
      let bird_s := add_velocity
        (apply_separation neighbors bird
           (separation_distance_ fl) (separation_ fl)) bird in
      let bird_a := add_velocity
        (apply_alignment neighbors bird_s (alignment_ fl)) bird_s in
      add_velocity (apply_cohesion neighbors bird_a (cohesion_ fl)) bird_a
    else bird in
  let bird2 :=
    if with_predator_ fl then
      add_velocity
        (avoid_predator (<[i := bird1]> (birds_ fl)) bird1 counter
           (predator_ fl) (separation_distance_ fl) (view_angle_ fl)) bird1
    else bird1 in
  exec (evolve_bird i counter) fl
  = set_birds_
      (<[i := integrate (9 / 10)
                (avoid_boundaries (avoid_speeding bird2 5 2)
                   (canvas_width_ fl) (canvas_height_ fl))]> (birds_ fl)) fl.
Proof.
  intros Hi neighbors bird1 bird2.
  assert (Hlt : (i < length (birds_ fl))%nat) by by eapply lookup_lt_Some.
  unfold evolve_bird. rewrite exec_bind, eval_get, exec_get, Hi.
  rewrite exec_bind, eval_get_neighbors, exec_get_neighbors.
  fold neighbors.
  rewrite exec_bind.
  assert (Hstep1 :
    exec (if negb (length neighbors =? 0)%nat then
       modify_bird i (λ fl bird, add_velocity
         (apply_separation neighbors bird
            (separation_distance_ fl) (separation_ fl)) bird);;
       modify_bird i (λ fl bird, add_velocity
         (apply_alignment neighbors bird (alignment_ fl)) bird);;
       modify_bird i (λ fl bird, add_velocity
         (apply_cohesion neighbors bird (cohesion_ fl)) bird)
     else mret tt) fl = set_birds_ (<[i := bird1]> (birds_ fl)) fl).
  { subst bird1. destruct (negb (length neighbors =? 0)%nat).
    - rewrite !exec_bind. erewrite (modify_bird_insert _ _ fl) by done.
      rewrite modify_bird_insert' by done.
      rewrite modify_bird_insert' by done. done.
    - rewrite exec_ret, list_insert_id by done. by rewrite set_birds_same. }
  rewrite Hstep1, exec_bind.
  assert (Hstep2 :
    exec (if with_predator_ fl then
       modify_bird i (λ fl bird, add_velocity
         (avoid_predator (birds_ fl) bird counter (predator_ fl)
            (separation_distance_ fl) (view_angle_ fl)) bird)
     else mret tt) (set_birds_ (<[i := bird1]> (birds_ fl)) fl)
    = set_birds_ (<[i := bird2]> (birds_ fl)) fl).
  { subst bird2. destruct (with_predator_ fl).
    - by rewrite modify_bird_insert' by done.
    - done. }
  rewrite Hstep2, !exec_bind.
  rewrite modify_bird_insert' by done.
  rewrite modify_bird_insert' by done.
  rewrite modify_bird_insert' by done. done.
Qed.

Lemma evolve_bird_none (i : nat) (counter : Z) (fl : Flock) :
  birds_ fl !! i = None → exec (evolve_bird i counter) fl = fl.
Proof.
  intros Hi. unfold evolve_bird. by rewrite exec_bind, eval_get, exec_get, Hi.
Qed.

(** One iteration writes the element at its own index and nothing else. *)
Lemma evolve_bird_frame (i : nat) (counter : Z) (fl : Flock) :
  ∃ bird', exec (evolve_bird i counter) fl
           = set_birds_ (<[i := bird']> (birds_ fl)) fl.
Proof.
  destruct (birds_ fl !! i) as [bird|] eqn:Hi.
  - eexists. by apply evolve_bird_run.
  - exists Bird_default. rewrite evolve_bird_none by done.
    rewrite list_insert_ge; [by rewrite set_birds_same|].
    by apply lookup_ge_None.
Qed.

(** The result of an iteration at index [i] is determined by the state it
    starts from. *)
Lemma for_each_bird_run (n i : nat) (counter : Z) (fl : Flock) :
  ∃ birds,
    exec (for_each_bird n i counter) fl = set_birds_ birds fl
    ∧ length birds = length (birds_ fl)
    ∧ take i birds = take i (birds_ fl)
    ∧ drop (i + n) birds = drop (i + n) (birds_ fl)
    ∧ ∀ j, (i ≤ j < i + n)%nat →
        birds !! j
        = birds_ (exec (evolve_bird j (counter + Z.of_nat (j - i)))
                    (set_birds_ (take j birds ++ drop j (birds_ fl)) fl)) !! j.
Proof.
  revert i counter fl. induction n as [|n IH]; intros i counter fl.
  - exists (birds_ fl). cbn [for_each_bird]. rewrite exec_ret, set_birds_same.
    repeat split; try done. intros j ?; lia.
  - cbn [for_each_bird]. rewrite exec_bind.
    destruct (evolve_bird_frame i counter fl) as [bird' Hone].
    destruct (IH (S i) (counter + 1)%Z (exec (evolve_bird i counter) fl))
      as (birds & Hrun & Hlen & Htake & Hdrop & Hat).
    rewrite Hone in Hrun, Hlen, Htake, Hdrop. cbn in Hrun, Hlen, Htake, Hdrop.
    rewrite length_insert in Hlen.
    assert (Htake_i : take i birds = take i (birds_ fl)).
    { apply (f_equal (take i)) in Htake.
      rewrite !take_take, Nat.min_l in Htake by lia.
      by rewrite Htake, take_insert_ge by lia. }
    exists birds. split; [by rewrite Hone, Hrun|].
    split; [done|]. split; [done|]. split.
    { replace (i + S n)%nat with (S (i + n)) by lia.
      by rewrite Hdrop, drop_insert_lt by lia. }
    intros j Hj. destruct (decide (j = i)) as [->|Hne].
    + rewrite Htake_i, take_drop, set_birds_same, Nat.sub_diag, Z.add_0_r.
      rewrite Hone. cbn.
      apply (f_equal (.!! i)) in Htake.
      by rewrite !lookup_take_lt in Htake by lia.
    + rewrite Hat by lia. rewrite Hone. cbn.
      replace (counter + 1 + Z.of_nat (j - S i))%Z
        with (counter + Z.of_nat (j - i))%Z by lia.
      by rewrite drop_insert_lt by lia.
Qed.

Lemma evolve_predator_run (fl : Flock) :
  let predator := predator_ fl in
  let neighbors := filter (is_neighbor fl predator) (birds_ fl) in
  let predator1 :=
    if negb (length neighbors =? 0)%nat then
      let predator_c := add_velocity
        (apply_cohesion neighbors predator (cohesion_ fl * 2)) predator in
      add_velocity (apply_alignment neighbors predator_c (1 / 1000)) predator_c
    else predator in
  exec evolve_predator fl
  = if with_predator_ fl then
      set_predator_
        (integrate (8 / 10)
           (avoid_boundaries (avoid_speeding predator1 15 2)
              (canvas_width_ fl) (canvas_height_ fl))) fl
    else fl.
Proof.
  intros predator neighbors predator1.
  unfold evolve_predator. rewrite exec_bind, eval_get, exec_get.
  destruct (with_predator_ fl) eqn:Hwp; cbn [negb]; [|done].
  rewrite exec_bind, eval_get_neighbors, exec_get_neighbors.
  fold predator neighbors. rewrite exec_bind.
  assert (Hstep :
    exec (if negb (length neighbors =? 0)%nat then
       modify_predator (λ fl predator, add_velocity
         (apply_cohesion neighbors predator (cohesion_ fl * 2)) predator);;
       modify_predator (λ fl predator, add_velocity
         (apply_alignment neighbors predator (1 / 1000)) predator)
     else mret tt) fl = set_predator_ predator1 fl).
  { subst predator1. destruct (negb (length neighbors =? 0)%nat).
    - by rewrite exec_bind, !exec_modify_predator.
    - rewrite exec_ret. by destruct fl. }
  rewrite Hstep, !exec_bind, !exec_modify_predator. done.
Qed.

Lemma evolve_predator_birds (fl : Flock) :
  exec evolve_predator fl = set_predator_ (predator_ (exec evolve_predator fl)) fl.
Proof.
  rewrite evolve_predator_run. cbn zeta.
  destruct (with_predator_ fl); [done|by destruct fl].
Qed.

Lemma evolve_run (fl : Flock) :
  exec evolve fl = set_birds_ (birds_ (exec evolve fl)) (exec evolve_predator fl)
  ∧ length (birds_ (exec evolve fl)) = length (birds_ fl)
  ∧ ∀ i, (i < length (birds_ fl))%nat →
      birds_ (exec evolve fl) !! i
      = birds_ (exec (evolve_bird i (Z.of_nat i)) (population_at fl i)) !! i.
Proof.
  assert (Hbirds : birds_ (exec evolve_predator fl) = birds_ fl)
    by by rewrite evolve_predator_birds.
  destruct (for_each_bird_run (length (birds_ (exec evolve_predator fl))) 0 0
              (exec evolve_predator fl))
    as (birds & Hrun & Hlen & _ & _ & Hat).
  assert (Hev : exec evolve fl = set_birds_ birds (exec evolve_predator fl)).
  { unfold evolve. by rewrite !exec_bind, !eval_get, !exec_get, !exec_ret. }
  unfold population_at. rewrite Hev. cbn [birds_ set_birds_].
  rewrite Hbirds in *.
  split; [done|]. split; [done|].
  intros i Hi. rewrite Hat by lia.
  by rewrite Z.add_0_l, Nat.sub_0_r.
Qed.

Lemma population_at_lookup (fl : Flock) (i j : nat) :
  (i ≤ length (birds_ fl))%nat →
  birds_ (population_at fl i) !! j
  = if decide (j < i)%nat then birds_ (exec evolve fl) !! j
    else birds_ fl !! j.
Proof.
  intros Hi. destruct (evolve_run fl) as (_ & Hlen & _).
  unfold population_at. cbn [birds_ set_birds_].
  case_decide.
  - rewrite lookup_app_l by (rewrite length_take; lia).
    by rewrite lookup_take_lt.
  - rewrite lookup_app_r by (rewrite length_take; lia).
    rewrite length_take, lookup_drop. f_equal. lia.
Qed.

Lemma population_at_0 (fl : Flock) :
  population_at fl 0 = exec evolve_predator fl.
Proof.
  unfold population_at. rewrite take_0, drop_0. cbn [app].
  assert (Hb : birds_ (exec evolve_predator fl) = birds_ fl)
    by by rewrite evolve_predator_birds.
  rewrite <-Hb. apply set_birds_same.
Qed.

(** C2, as amended. [evolve] updates the agents in place and in population
    order: when the pass reaches the agent at index [i], that agent still
    holds its pre-step state, the agents before it already hold their
    post-step position and velocity, the agents after it their pre-step
    ones, and the predator has moved; the neighbour search and the whole
    update of agent [i] run on that population.  The first agent is the
    one whose update agrees with the snapshot reference step. *)
Theorem evolve_in_place (fl : Flock) (i : nat) (bird : Bird) :
  birds_ fl !! i = Some bird →
  birds_ (population_at fl i) !! i = Some bird
  ∧ (∀ j, (j < i)%nat →
       birds_ (population_at fl i) !! j = birds_ (exec evolve fl) !! j)
  ∧ (∀ j, (i ≤ j)%nat → birds_ (population_at fl i) !! j = birds_ fl !! j)
  ∧ birds_ (exec evolve fl) !! i
    = birds_ (exec (evolve_bird i (Z.of_nat i)) (population_at fl i)) !! i
  ∧ birds_ (exec evolve fl) !! 0%nat = birds_ (evolve_snapshot fl) !! 0%nat.
Proof.
  intros Hi.
  assert (Hlt : (i < length (birds_ fl))%nat) by by eapply lookup_lt_Some.
  destruct (evolve_run fl) as (_ & Hlen & Hat).
  split; [|split; [|split; [|split]]].
  - rewrite population_at_lookup by lia. by rewrite decide_False by lia.
  - intros j Hj. rewrite population_at_lookup by lia.
    by rewrite decide_True by lia.
  - intros j Hj. rewrite population_at_lookup by lia.
    by rewrite decide_False by lia.
  - by apply Hat.
  - rewrite Hat by lia. rewrite population_at_0.
    unfold evolve_snapshot. cbn [birds_ set_birds_].
    rewrite list_lookup_imap.
    assert (Hb : birds_ (exec evolve_predator fl) = birds_ fl)
      by by rewrite evolve_predator_birds.
    destruct (birds_ (exec evolve_predator fl) !! 0%nat) as [bird0|] eqn:H0.
    + destruct (evolve_bird_frame 0 0 (exec evolve_predator fl))
        as [bird' Hrun]. change (Z.of_nat 0) with 0%Z. rewrite Hrun.
      cbn [birds_ set_birds_ fmap option_fmap option_map default].
      rewrite list_lookup_insert_eq; [done|].
      rewrite Hb. lia.
    + rewrite evolve_bird_none by done. by rewrite H0.
Qed.

Lemma population_at_config (fl : Flock) (i : nat) :
  ∃ birds, population_at fl i
           = set_birds_ birds
               (set_predator_ (predator_ (exec evolve_predator fl)) fl).
Proof. unfold population_at. rewrite <-evolve_predator_birds. eauto. Qed.

(** The agent at index [i] after [evolve], spelled out down to the rule
    calls that follow the three steering rules. *)
Lemma evolve_lookup (fl : Flock) (i : nat) (bird : Bird) :
  birds_ fl !! i = Some bird →
  ∃ bird1 population,
    position bird1 = position bird
    ∧ birds_ (exec evolve fl) !! i
      = Some (integrate (9 / 10)
          (avoid_boundaries
             (avoid_speeding
                (if with_predator_ fl then
                   add_velocity
                     (avoid_predator population bird1 (Z.of_nat i)
                        (predator_ (exec evolve_predator fl))
                        (separation_distance_ fl) (view_angle_ fl)) bird1
                 else bird1) 5 2)
             (canvas_width_ fl) (canvas_height_ fl))).
Proof.
  intros Hi.
  assert (Hlt : (i < length (birds_ fl))%nat) by by eapply lookup_lt_Some.
  destruct (evolve_run fl) as (_ & _ & Hat). rewrite Hat by done.
  assert (Hpop : birds_ (population_at fl i) !! i = Some bird).
  { rewrite population_at_lookup by lia. by rewrite decide_False by lia. }
  rewrite (evolve_bird_run _ _ _ _ Hpop). cbn zeta. cbn [birds_ set_birds_].
  rewrite list_lookup_insert_eq by by eapply lookup_lt_Some.
  destruct (population_at_config fl i) as [birds ->].
  cbn [with_predator_ set_birds_ set_predator_ predator_ canvas_width_
       canvas_height_ separation_distance_ view_angle_ birds_].
  eexists _, _. split; [|reflexivity].
  by destruct (negb _).
Qed.

(** C4. With a predator configured, [evolve] first runs the whole update of
    the predator (neighbours gathered from the regular population as it
    stands before the step, velocity adjustment, speed clamp, boundary
    avoidance, position integration) without touching any regular agent;
    every regular agent is then updated against that moved predator, which
    is the predator that [avoid_predator] receives. *)
Theorem predator_moves_first (fl : Flock) (i : nat) (bird : Bird) :
  with_predator_ fl = true →
  birds_ fl !! i = Some bird →
  let moved := predator_ (exec evolve_predator fl) in
  (∃ predator1,
     position predator1 = position (predator_ fl)
     ∧ moved = integrate (8 / 10)
                 (avoid_boundaries (avoid_speeding predator1 15 2)
                    (canvas_width_ fl) (canvas_height_ fl)))
  ∧ birds_ (exec evolve_predator fl) = birds_ fl
  ∧ predator_ (population_at fl i) = moved
  ∧ predator_ (exec evolve fl) = moved
  ∧ ∃ bird1 population,
      position bird1 = position bird
      ∧ birds_ (exec evolve fl) !! i
        = Some (integrate (9 / 10)
            (avoid_boundaries
               (avoid_speeding
                  (add_velocity
                     (avoid_predator population bird1 (Z.of_nat i) moved
                        (separation_distance_ fl) (view_angle_ fl)) bird1)
                  5 2)
               (canvas_width_ fl) (canvas_height_ fl))).
Proof.
  intros Hwp Hi moved. split; [|split; [|split; [|split]]].
  - subst moved. rewrite evolve_predator_run, Hwp. cbn zeta.
    eexists. split; [|reflexivity]. by destruct (negb _).
  - by rewrite evolve_predator_birds.
  - by destruct (population_at_config fl i) as [birds ->].
  - destruct (evolve_run fl) as (-> & _ & _). done.
  - destruct (evolve_lookup fl i bird Hi) as (bird1 & population & Hpos & Hat).
    rewrite Hwp in Hat. eauto.
Qed.

(** C9. Whatever the configuration, [evolve] clamps every regular agent
    with [avoid_speeding(bird, 5, 2)] (maximum 5, minimum 2) and advances
    its position by [0.9] times its velocity, and clamps the predator with
    [avoid_speeding(predator_, 15, 2)] and advances it by [0.8] times its
    velocity. *)
Theorem speed_bounds_are_fixed (fl : Flock) (i : nat) (bird : Bird) :
  birds_ fl !! i = Some bird →
  (∃ bird2 clamped,
     position bird2 = position bird
     ∧ clamped = avoid_boundaries (avoid_speeding bird2 5 2)
                   (canvas_width_ fl) (canvas_height_ fl)
     ∧ birds_ (exec evolve fl) !! i
       = Some (mkBird (Vadd (position clamped)
                         (Vscale (velocity clamped) (9 / 10)))
                 (velocity clamped)))
  ∧ (with_predator_ fl = true →
     ∃ predator1 clamped,
       position predator1 = position (predator_ fl)
       ∧ clamped = avoid_boundaries (avoid_speeding predator1 15 2)
                     (canvas_width_ fl) (canvas_height_ fl)
       ∧ predator_ (exec evolve fl)
         = mkBird (Vadd (position clamped)
                     (Vscale (velocity clamped) (8 / 10)))
             (velocity clamped)).
Proof.
  intros Hi. split.
  - destruct (evolve_lookup fl i bird Hi) as (bird1 & population & Hpos & Hat).
    eexists _, _. split; [|split; [reflexivity|exact Hat]].
    by destruct (with_predator_ fl).
  - intros Hwp. destruct (evolve_run fl) as (-> & _ & _).
    cbn [predator_ set_birds_]. rewrite evolve_predator_run, Hwp. cbn zeta.
    eexists _, _. split; [|split; reflexivity]. by destruct (negb _).
Qed.

Lemma evolve_length (fl : Flock) :
  length (birds_ (exec evolve fl)) = length (birds_ fl).
Proof. by destruct (evolve_run fl) as (_ & ? & _). Qed.

Lemma steps_length (k : nat) (fl : Flock) :
  length (birds_ (exec (steps k) fl)) = length (birds_ fl).
Proof.
  revert fl. induction k as [|k IH]; intros fl; cbn [steps].
  - by rewrite exec_ret.
  - by rewrite exec_bind, IH, evolve_length.
Qed.

(** C10. The observers return the state they were given: [get_neighbors],
    [size] and [calculate_statistics] change no agent, not the predator and
    no configuration field. *)
Theorem observers_leave_state (fl : Flock) (bird : Bird) :
  exec (get_neighbors bird) fl = fl
  ∧ exec size fl = fl
  ∧ exec calculate_statistics fl = fl.
Proof. by rewrite exec_get_neighbors. Qed.
End Step.

(** ** Statistics *)

Lemma foldl_velocity_sum (l : list Bird) (acc : Vector2) :
  foldl (λ sum bird, Vadd sum (velocity bird)) acc l
  = mkVector2 (x acc + Rsum ((λ b, x (velocity b)) <$> l))
              (y acc + Rsum ((λ b, y (velocity b)) <$> l)).
Proof.
  revert acc. induction l as [|bird l IH]; intros acc; cbn [foldl].
  - destruct acc; cbn. f_equal; lra.
  - rewrite IH. unfold Rsum. cbn. f_equal; lra.
Qed.

Lemma foldl_squared_deviations (l : list Bird) (m : Vector2) (ax ay : R) :
  foldl (λ '(stdev_x, stdev_y) bird,
      (stdev_x + (x (velocity bird) - x m) * (x (velocity bird) - x m),
       stdev_y + (y (velocity bird) - y m) * (y (velocity bird) - y m)))
    (ax, ay) l
  = (ax + Rsum ((λ v, (v - x m) * (v - x m)) <$> ((λ b, x (velocity b)) <$> l)),
     ay + Rsum ((λ v, (v - y m) * (v - y m)) <$> ((λ b, y (velocity b)) <$> l))).
Proof.
  revert ax ay. induction l as [|bird l IH]; intros ax ay; cbn [foldl].
  - cbn. f_equal; lra.
  - rewrite IH. unfold Rsum. cbn. f_equal; lra.
Qed.

Lemma fdiv_Some (a b : R) : b ≠ 0 → fdiv a b = Some (a / b).
Proof. intros Hb. unfold fdiv. by rewrite decide_False. Qed.

Lemma fdiv_zero (a : R) : fdiv a 0 = None.
Proof. unfold fdiv. by rewrite decide_True. Qed.

Lemma INR_length_nonzero {A} (l : list A) : l ≠ [] → INR (length l) ≠ 0.
Proof. intros Hl. apply not_0_INR. by destruct l. Qed.

Lemma calculate_statistics_nonempty (fl : Flock) :
  birds_ fl ≠ [] →
  let vxs := (λ b, x (velocity b)) <$> birds_ fl in
  let vys := (λ b, y (velocity b)) <$> birds_ fl in
  eval calculate_statistics fl
  = Some (mkStatistic
            (mkVector2 (arithmetic_mean vxs) (arithmetic_mean vys))
            (mkVector2 (sqrt (population_variance vxs))
                       (sqrt (population_variance vys)))).
Proof.
  intros Hne vxs vys. pose proof (INR_length_nonzero _ Hne) as Hn.
  unfold calculate_statistics, eval. run_state. cbn [fst].
  rewrite foldl_velocity_sum. unfold Vdiv. cbn [x y].
  rewrite !fdiv_Some by done. cbn [mbind option_bind].
  rewrite foldl_squared_deviations. cbn [x y].
  rewrite !fdiv_Some by done. cbn [mbind option_bind].
  unfold population_variance, arithmetic_mean. subst vxs vys.
  rewrite !length_fmap, !Rplus_0_l. done.
Qed.

Lemma calculate_statistics_empty (fl : Flock) :
  birds_ fl = [] → eval calculate_statistics fl = None.
Proof.
  intros He. unfold calculate_statistics, eval. run_state. cbn [fst].
  rewrite He. cbn [length INR foldl]. unfold Vdiv. cbn [x].
  by rewrite fdiv_zero.
Qed.

Lemma Rsum_constant (l : list R) (c : R) :
  (∀ v, v ∈ l → v = c) → Rsum l = INR (length l) * c.
Proof.
  induction l as [|v l IH]; intros Hall.
  - cbn. lra.
  - cbn [Rsum foldr length]. rewrite S_INR.
    fold (Rsum l). rewrite IH by (intros; apply Hall; by right).
    rewrite (Hall v) by by left. lra.
Qed.

Lemma arithmetic_mean_constant (l : list R) (c : R) :
  l ≠ [] → (∀ v, v ∈ l → v = c) → arithmetic_mean l = c.
Proof.
  intros Hne Hall. unfold arithmetic_mean. rewrite (Rsum_constant l c) by done.
  field. by apply INR_length_nonzero.
Qed.

Lemma population_variance_constant (l : list R) (c : R) :
  l ≠ [] → (∀ v, v ∈ l → v = c) → population_variance l = 0.
Proof.
  intros Hne Hall. unfold population_variance.
  rewrite (arithmetic_mean_constant l c) by done.
  rewrite (Rsum_constant _ 0).
  - field. by apply INR_length_nonzero.
  - intros v (w & -> & Hw)%list_elem_of_fmap. rewrite (Hall w) by done. lra.
Qed.

(** C5. On a non-empty population [calculate_statistics] returns the
    arithmetic mean of the velocity vectors and, on each axis, the square
    root of the population variance of that velocity component (squared
    deviations summed and divided by [N]); when every agent has the same
    velocity the mean is that velocity and the deviation is [(0, 0)]. *)
Theorem statistics_mean_and_deviation (fl : Flock) :
  birds_ fl ≠ [] →
  let vxs := (λ b, x (velocity b)) <$> birds_ fl in
  let vys := (λ b, y (velocity b)) <$> birds_ fl in
  eval calculate_statistics fl
  = Some (mkStatistic
            (mkVector2 (arithmetic_mean vxs) (arithmetic_mean vys))
            (mkVector2 (sqrt (population_variance vxs))
                       (sqrt (population_variance vys))))
  ∧ ∀ v, (∀ b, b ∈ birds_ fl → velocity b = v) →
      eval calculate_statistics fl = Some (mkStatistic v (mkVector2 0 0)).
Proof.
  intros Hne vxs vys. split; [by apply calculate_statistics_nonempty|].
  intros v Hall. rewrite calculate_statistics_nonempty by done.
  assert (Hx : ∀ w, w ∈ (λ b, x (velocity b)) <$> birds_ fl → w = x v).
  { intros w (b & -> & Hb)%list_elem_of_fmap. by rewrite (Hall b). }
  assert (Hy : ∀ w, w ∈ (λ b, y (velocity b)) <$> birds_ fl → w = y v).
  { intros w (b & -> & Hb)%list_elem_of_fmap. by rewrite (Hall b). }
  assert (Hne' : ∀ f : Bird → R, f <$> birds_ fl ≠ []).
  { intros f. by destruct (birds_ fl). }
  rewrite (arithmetic_mean_constant _ (x v)), (arithmetic_mean_constant _ (y v))
    by done.
  rewrite (population_variance_constant _ (x v)),
    (population_variance_constant _ (y v)) by done.
  rewrite sqrt_0. by destruct v.
Qed.

(** ** The population over the engine's lifetime *)

Section Lifetime.
Context `{rules : Rules} `{random : Random}.

Lemma Flock_new_inv (o : FlockOptions) (gen : Gen) (fl : Flock) :
  Flock_new o gen = Constructed fl →
  valid_options o ∧ length (birds_ fl) = Z.to_nat (number o).
Proof.
  intros Hnew. destruct (decide (valid_options o)) as [Hv|Hv].
  - split; [done|]. rewrite Flock_new_valid in Hnew by done.
    injection Hnew as <-. cbn [birds_]. by rewrite generate_n_length.
  - by rewrite Flock_new_invalid in Hnew.
Qed.

(** C8. An engine constructed for [number] agents reports [number] from
    [size], at once and after any number of calls of [evolve], with or
    without a predator: [evolve] neither adds nor removes an agent, and the
    predator is not stored in [birds_]. *)
Theorem size_is_constant (o : FlockOptions) (gen : Gen) (fl : Flock)
    (k : nat) :
  (number o < 2 ^ 31)%Z →
  Flock_new o gen = Constructed fl →
  (0 < number o)%Z
  ∧ eval size fl = number o
  ∧ eval size (exec (steps k) fl) = number o
  ∧ length (birds_ (exec (steps k) fl)) = length (birds_ fl).
Proof.
  intros Hint (Hv & Hlen)%Flock_new_inv.
  destruct Hv as (Hn & _). split; [done|].
  assert (Hsize : ∀ fl', length (birds_ fl') = Z.to_nat (number o) →
                         eval size fl' = number o).
  { intros fl' Hl. unfold size, eval. run_state. cbn [fst].
    rewrite Hl, Z2Nat.id by lia. apply Z.mod_small. lia. }
  split; [by apply Hsize|]. split; [|apply steps_length].
  apply Hsize. by rewrite steps_length.
Qed.

(** C6, as amended. [calculate_statistics] divides by the population size
    without a guard: on an empty population the divisor is zero and the
    result is not a number.  An engine that was constructed never meets
    that case, since its population is non-empty at construction and
    after any number of calls of [evolve], where the statistics are
    defined. *)
Theorem statistics_defined_for_engines (o : FlockOptions) (gen : Gen)
    (fl vacant : Flock) (k : nat) :
  Flock_new o gen = Constructed fl →
  birds_ vacant = [] →
  eval calculate_statistics vacant = None
  ∧ birds_ (exec (steps k) fl) ≠ []
  ∧ is_Some (eval calculate_statistics (exec (steps k) fl)).
Proof.
  intros (Hv & Hlen)%Flock_new_inv Hvacant.
  split; [by apply calculate_statistics_empty|].
  assert (Hne : birds_ (exec (steps k) fl) ≠ []).
  { intros Hnil. pose proof (steps_length k fl) as Hk.
    rewrite Hnil, Hlen in Hk. destruct Hv as (Hn & _). cbn in Hk. lia. }
  split; [done|]. by rewrite calculate_statistics_nonempty.
Qed.

End Lifetime.

(** ** Speed clamping *)

(** C7. On an agent whose speed is positive, with bounds
    [0 <= min_speed <= max_speed], the clamp leaves a speed within
    [[min_speed, max_speed]]: a speed above [max_speed] becomes [max_speed],
    a speed below [min_speed] becomes [min_speed], the velocity is the old
    one scaled by the ratio of the two speeds, which is positive as soon as
    [max_speed] is, so that the direction is kept, and the position is
    untouched. *)
Theorem avoid_speeding_within_bounds (bird : Bird) (max_speed min_speed : R) :
  0 < magnitude (velocity bird) →
  0 <= min_speed <= max_speed →
  let bird' := SpecRules.avoid_speeding bird max_speed min_speed in
  min_speed <= magnitude (velocity bird') <= max_speed
  ∧ (magnitude (velocity bird) > max_speed →
     magnitude (velocity bird') = max_speed)
  ∧ (magnitude (velocity bird) < min_speed →
     magnitude (velocity bird') = min_speed)
  ∧ velocity bird'
    = Vscale (velocity bird)
        (magnitude (velocity bird') / magnitude (velocity bird))
  ∧ (0 < max_speed →
     0 < magnitude (velocity bird') / magnitude (velocity bird))
  ∧ position bird' = position bird.
Proof.
  intros Hpos [Hmin Hmax] bird'. subst bird'. unfold SpecRules.avoid_speeding.
  set (speed := magnitude (velocity bird)) in *.
  assert (Hscaled : ∀ target, 0 <= target →
            magnitude (Vscale (velocity bird) (target / speed)) = target).
  { intros target Ht. rewrite magnitude_Vscale. fold speed.
    rewrite Rabs_right.
    - field. lra.
    - apply Rle_ge. unfold Rdiv.
      apply Rmult_le_pos; [lra|]. left. apply Rinv_0_lt_compat. lra. }
  assert (Hsame : ∀ v : Vector2, v = Vscale v (speed / speed)).
  { intros [vx vy]. unfold Vscale; cbn. f_equal; field; lra. }
  assert (Hratio : ∀ target, 0 < target → 0 < target / speed).
  { intros target Ht. by apply Rdiv_lt_0_compat. }
  case_bool_decide as Hhi.
  - cbn [velocity position]. rewrite Hscaled by lra.
    repeat split; try lra; try (intros; lra). apply Hratio.
  - case_bool_decide as Hlo; cbn [andb].
    + rewrite bool_decide_eq_true_2 by lra.
      cbn [velocity position]. rewrite Hscaled by lra.
      repeat split; try lra; try (intros; lra). intros _. apply Hratio. lra.
    + fold speed. repeat split; try lra; try (intros; lra).
      * apply Hsame.
      * intros _. by apply Hratio.
Qed.

(** ** The rules of the specification on concrete agents *)

Lemma Bird_eq (p v p' v' : Vector2) :
  x p = x p' → y p = y p' → x v = x v' → y v = y v' →
  mkBird p v = mkBird p' v'.
Proof. destruct p, v, p', v'; cbn. by intros -> -> -> ->. Qed.

Lemma avoid_speeding_in_range (bird : Bird) (max_speed min_speed : R) :
  min_speed <= magnitude (velocity bird) <= max_speed →
  SpecRules.avoid_speeding bird max_speed min_speed = bird.
Proof.
  intros [Hlo Hhi]. unfold SpecRules.avoid_speeding.
  rewrite bool_decide_eq_false_2 by lra.
  by rewrite (bool_decide_eq_false_2 (_ < _)) by lra.
Qed.

Lemma avoid_boundaries_inside (bird : Bird) (width height : R) :
  0 <= x (position bird) <= width → 0 <= y (position bird) <= height →
  SpecRules.avoid_boundaries bird width height = bird.
Proof.
  intros [Hx0 Hx1] [Hy0 Hy1]. unfold SpecRules.avoid_boundaries.
  rewrite !(bool_decide_eq_false_2 (_ < 0)) by lra.
  rewrite !(bool_decide_eq_false_2 (_ > _)) by lra.
  destruct bird as [p v]. unfold add_velocity. apply Bird_eq; cbn; lra.
Qed.

Lemma apply_separation_out_of_reach (neighbors : list Bird) (subject : Bird)
    (separation_distance weight : R) :
  separation_distance <= 0 →
  SpecRules.apply_separation neighbors subject separation_distance weight
  = Vscale SpecRules.Vzero weight.
Proof.
  intros Hsd. unfold SpecRules.apply_separation.
  replace (filter _ neighbors) with (@nil Bird); [done|].
  induction neighbors as [|n l IH]; [done|].
  rewrite filter_cons_False; [done|].
  pose proof (magnitude_nonneg (Vsub (position n) (position subject))). lra.
Qed.

Lemma get_angle_horizontal (a b : R) :
  a ≠ 0 → b ≠ 0 →
  SpecRules.get_angle (mkVector2 a 0) (mkVector2 b 0)
  = acos (a * b / (Rabs a * Rabs b)).
Proof.
  intros Ha Hb. unfold SpecRules.get_angle. rewrite !magnitude_horizontal.
  rewrite decide_False.
  - cbn [x y]. f_equal. f_equal. lra.
  - intros [H0|H0]; by apply Rabs_no_R0 in H0.
Qed.

Lemma get_angle_ahead (a b : R) :
  a < 0 → b < 0 → SpecRules.get_angle (mkVector2 a 0) (mkVector2 b 0) = 0.
Proof.
  intros Ha Hb. rewrite get_angle_horizontal by lra.
  rewrite !Rabs_left by done.
  replace (a * b / (- a * - b)) with 1 by (field; lra). apply acos_1.
Qed.

Lemma get_angle_behind (a b : R) :
  0 < a → b < 0 → SpecRules.get_angle (mkVector2 a 0) (mkVector2 b 0) = PI.
Proof.
  intros Ha Hb. rewrite get_angle_horizontal by lra.
  rewrite Rabs_right, Rabs_left by lra.
  replace (a * b / (a * - b)) with (- (1)) by (field; lra).
  rewrite acos_opp, acos_1. lra.
Qed.

Lemma one_below_PI : 1 < PI.
Proof. pose proof PI2_1. lra. Qed.

(** ** One step of the two-agent population *)

Section SampleRuns.
Import Samples.
#[local] Existing Instance SpecRules.rules.

Lemma not_neighbor_of_itself (fl : Flock) (bird : Bird) :
  ¬ is_neighbor fl bird bird.
Proof. intros [[Hpos _] _]. rewrite magnitude_Vsub_diag in Hpos. lra. Qed.

Lemma bird0_ignores_bird1 (fl : Flock) :
  view_angle_ fl = 1 → ¬ is_neighbor fl bird0 bird1.
Proof.
  intros Hva [_ Hangle]. rewrite Hva in Hangle.
  replace (Vsub (position bird1) (position bird0)) with (mkVector2 9 0)
    in Hangle by (unfold Vsub; cbn; f_equal; lra).
  cbn in Hangle. rewrite get_angle_behind in Hangle by lra.
  pose proof one_below_PI. lra.
Qed.

Lemma bird1_sees_bird0 (fl : Flock) :
  distance_ fl = 10 → view_angle_ fl = 1 → is_neighbor fl bird1 bird0.
Proof.
  intros Hd Hva. unfold is_neighbor. rewrite Hd, Hva.
  replace (Vsub (position bird0) (position bird1)) with (mkVector2 (-9) 0)
    by (unfold Vsub; cbn; f_equal; lra).
  rewrite magnitude_horizontal, Rabs_left by lra.
  cbn. rewrite get_angle_ahead by lra. lra.
Qed.

Lemma bird1_misses_bird0_after (fl : Flock) :
  distance_ fl = 10 → ¬ is_neighbor fl bird1 bird0_after.
Proof.
  intros Hd [[_ Hdist] _]. rewrite Hd in Hdist.
  replace (Vsub (position bird0_after) (position bird1))
    with (mkVector2 (- (117 / 10)) 0) in Hdist
    by (unfold Vsub; cbn; f_equal; lra).
  rewrite magnitude_horizontal, Rabs_left in Hdist by lra. lra.
Qed.

Lemma speed_of_bird0 : magnitude (velocity bird0) = 3.
Proof. cbn. rewrite magnitude_horizontal, Rabs_left by lra. lra. Qed.

Lemma speed_of_bird1 : magnitude (velocity bird1) = 4.
Proof. cbn. rewrite magnitude_horizontal, Rabs_left by lra. lra. Qed.

Lemma evolve_bird0_in_place :
  exec (evolve_bird 0 0) pair = set_birds_ [bird0_after; bird1] pair.
Proof.
  rewrite (evolve_bird_run 0 0 pair bird0) by done. cbn zeta.
  cbn [birds_ pair].
  rewrite filter_cons_False by apply not_neighbor_of_itself.
  rewrite filter_cons_False by by apply bird0_ignores_bird1.
  rewrite filter_nil.
  cbn [length Nat.eqb negb with_predator_ canvas_width_ canvas_height_ pair
       set_birds_].
  rewrite avoid_speeding_in_range by (rewrite speed_of_bird0; lra).
  rewrite avoid_boundaries_inside by (cbn; lra).
  replace (integrate (9 / 10) bird0) with bird0_after; [done|].
  unfold integrate, bird0_after. apply Bird_eq; cbn; lra.
Qed.

Lemma evolve_bird1_in_place :
  exec (evolve_bird 1 1) (set_birds_ [bird0_after; bird1] pair)
  = set_birds_ [bird0_after; bird1_after] pair.
Proof.
  rewrite (evolve_bird_run 1 1 _ bird1) by done. cbn zeta.
  cbn [birds_ pair set_birds_].
  rewrite filter_cons_False by by apply bird1_misses_bird0_after.
  rewrite filter_cons_False by apply not_neighbor_of_itself.
  rewrite filter_nil.
  cbn [length Nat.eqb negb with_predator_ canvas_width_ canvas_height_ pair
       set_birds_].
  rewrite avoid_speeding_in_range by (rewrite speed_of_bird1; lra).
  rewrite avoid_boundaries_inside by (cbn; lra).
  replace (integrate (9 / 10) bird1) with bird1_after; [done|].
  unfold integrate, bird1_after. apply Bird_eq; cbn; lra.
Qed.

Lemma evolve_predator_pair : exec evolve_predator pair = pair.
Proof. by rewrite evolve_predator_run. Qed.

Lemma evolve_pair :
  exec evolve pair = set_birds_ [bird0_after; bird1_after] pair.
Proof.
  unfold evolve. rewrite exec_bind, evolve_predator_pair.
  rewrite exec_bind, eval_get, exec_get, exec_bind, exec_ret.
  cbn [birds_ pair length for_each_bird].
  change (0 + 1)%Z with 1%Z. rewrite !exec_bind, exec_ret.
  by rewrite evolve_bird0_in_place, evolve_bird1_in_place.
Qed.

Lemma evolve_bird1_from_snapshot :
  exec (evolve_bird 1 1) pair = set_birds_ [bird0; bird1_reference] pair.
Proof.
  rewrite (evolve_bird_run 1 1 pair bird1) by done. cbn zeta.
  cbn [birds_ pair].
  rewrite filter_cons_True by by apply bird1_sees_bird0.
  rewrite filter_cons_False by apply not_neighbor_of_itself.
  rewrite filter_nil.
  cbn [length Nat.eqb negb with_predator_ canvas_width_ canvas_height_
       separation_distance_ separation_ alignment_ cohesion_ pair].
  cbn [apply_separation apply_alignment apply_cohesion avoid_speeding
       avoid_boundaries SpecRules.rules].
  rewrite apply_separation_out_of_reach by lra.
  set (steered := add_velocity _ (add_velocity _ (add_velocity _ bird1))).
  assert (Hsteered : steered = mkBird (position bird1) (mkVector2 (-3) 0)).
  { subst steered. unfold add_velocity, SpecRules.apply_cohesion,
      SpecRules.apply_alignment, SpecRules.Vmean, SpecRules.Vsum.
    apply Bird_eq; cbn; lra. }
  rewrite Hsteered.
  rewrite avoid_speeding_in_range
    by (cbn; rewrite magnitude_horizontal, Rabs_left by lra; lra).
  rewrite avoid_boundaries_inside by (cbn; lra).
  replace (integrate _ _) with bird1_reference; [done|].
  unfold integrate, bird1_reference. apply Bird_eq; cbn; lra.
Qed.

Lemma evolve_snapshot_pair :
  evolve_snapshot pair = set_birds_ [bird0_after; bird1_reference] pair.
Proof.
  unfold evolve_snapshot. rewrite evolve_predator_pair.
  cbn [birds_ pair imap compose].
  change (Z.of_nat 0) with 0%Z. change (Z.of_nat 1) with 1%Z.
  by rewrite evolve_bird0_in_place, evolve_bird1_from_snapshot.
Qed.

Lemma population_at_pair_1 :
  population_at pair 1 = set_birds_ [bird0_after; bird1] pair.
Proof.
  unfold population_at. by rewrite evolve_pair, evolve_predator_pair.
Qed.

(** C2 does not hold of [evolve]: on [pair] the second agent is given an
    empty neighbour set, since the first agent has already moved out of
    reach, whereas the population the step started with gives it the first
    agent as a neighbour; the in-place step and the snapshot reference step
    leave the second agent with different velocities. *)
Lemma evolve_is_not_snapshot_step :
  eval (get_neighbors bird1) (population_at pair 1) = []
  ∧ eval (get_neighbors bird1) pair = [bird0]
  ∧ exec evolve pair ≠ evolve_snapshot pair.
Proof.
  split; [|split].
  - rewrite eval_get_neighbors, population_at_pair_1. cbn [birds_ set_birds_].
    rewrite filter_cons_False by by apply bird1_misses_bird0_after.
    by rewrite filter_cons_False by apply not_neighbor_of_itself.
  - rewrite eval_get_neighbors. cbn [birds_ pair].
    rewrite filter_cons_True by by apply bird1_sees_bird0.
    by rewrite filter_cons_False by apply not_neighbor_of_itself.
  - rewrite evolve_pair, evolve_snapshot_pair. intros Heq.
    apply (f_equal (λ fl, x ∘ velocity <$> birds_ fl !! 1%nat)) in Heq.
    cbn in Heq. injection Heq as Heq. lra.
Qed.

(** *** The theorems on the sample data *)

Lemma evolve_in_place_witness :
  birds_ pair !! 1%nat = Some bird1
  ∧ birds_ (exec evolve pair) !! 1%nat
    = birds_ (exec (evolve_bird 1 1) (population_at pair 1)) !! 1%nat
  ∧ birds_ (exec evolve pair) !! 0%nat = birds_ (evolve_snapshot pair) !! 0%nat.
Proof.
  split; [reflexivity|].
  pose proof (evolve_in_place pair 1 bird1 eq_refl) as (_ & _ & _ & Hat & H0).
  split; [exact Hat|exact H0].
Defined.

Lemma predator_moves_first_witness :
  with_predator_ hunted = true
  ∧ birds_ hunted !! 0%nat = Some bird0
  ∧ birds_ (exec evolve_predator hunted) = birds_ hunted
  ∧ predator_ (population_at hunted 0) = predator_ (exec evolve_predator hunted)
  ∧ predator_ (exec evolve hunted) = predator_ (exec evolve_predator hunted).
Proof.
  split; [reflexivity|]. split; [reflexivity|].
  pose proof (predator_moves_first hunted 0 bird0 eq_refl eq_refl)
    as (_ & Hbirds & Hat & Hend & _).
  split; [exact Hbirds|]. split; [exact Hat|exact Hend].
Defined.

Lemma speed_bounds_are_fixed_witness :
  birds_ hunted !! 0%nat = Some bird0
  ∧ ∃ bird2 clamped,
      position bird2 = position bird0
      ∧ clamped = avoid_boundaries (avoid_speeding bird2 5 2) 1000 1000
      ∧ birds_ (exec evolve hunted) !! 0%nat
        = Some (mkBird (Vadd (position clamped)
                          (Vscale (velocity clamped) (9 / 10)))
                  (velocity clamped)).
Proof.
  split; [reflexivity|].
  exact (proj1 (speed_bounds_are_fixed hunted 0 bird0 eq_refl)).
Defined.

Lemma statistics_mean_and_deviation_witness :
  birds_ pair ≠ []
  ∧ eval calculate_statistics pair
    = Some (mkStatistic
              (mkVector2 (arithmetic_mean [-3; -4]) (arithmetic_mean [0; 0]))
              (mkVector2 (sqrt (population_variance [-3; -4]))
                         (sqrt (population_variance [0; 0])))).
Proof.
  assert (Hne : birds_ pair ≠ []) by discriminate.
  split; [exact Hne|].
  exact (proj1 (statistics_mean_and_deviation pair Hne)).
Defined.

Lemma avoid_speeding_within_bounds_witness :
  0 < magnitude (velocity bird0)
  ∧ 0 <= 2 <= 5
  ∧ 2 <= magnitude (velocity (SpecRules.avoid_speeding bird0 5 2)) <= 5.
Proof.
  assert (Hspeed : 0 < magnitude (velocity bird0))
    by (rewrite speed_of_bird0; lra).
  assert (Hbounds : 0 <= 2 <= 5) by lra.
  split; [exact Hspeed|]. split; [exact Hbounds|].
  exact (proj1 (avoid_speeding_within_bounds bird0 5 2 Hspeed Hbounds)).
Defined.

#[local] Existing Instance midpoint_random.

Lemma Flock_new_sample : Flock_new (options 2) 0%nat = Constructed constructed.
Proof.
  rewrite Flock_new_valid; [done|].
  unfold valid_options; cbn. repeat split; lia || lra.
Qed.

Lemma size_is_constant_witness :
  (number (options 2) < 2 ^ 31)%Z
  ∧ Flock_new (options 2) 0%nat = Constructed constructed
  ∧ eval size constructed = 2%Z
  ∧ eval size (exec (steps 3) constructed) = 2%Z.
Proof.
  assert (Hint : (number (options 2) < 2 ^ 31)%Z) by (cbn; lia).
  split; [exact Hint|]. split; [exact Flock_new_sample|].
  pose proof (size_is_constant (options 2) 0%nat constructed 3 Hint
                Flock_new_sample) as (_ & Hnow & Hlater & _).
  split; [exact Hnow|exact Hlater].
Defined.

Lemma statistics_defined_for_engines_witness :
  Flock_new (options 2) 0%nat = Constructed constructed
  ∧ birds_ empty = []
  ∧ eval calculate_statistics empty = None
  ∧ is_Some (eval calculate_statistics (exec (steps 3) constructed)).
Proof.
  split; [exact Flock_new_sample|]. split; [reflexivity|].
  pose proof (statistics_defined_for_engines (options 2) 0%nat constructed
                empty 3 Flock_new_sample eq_refl) as (Hnone & _ & Hsome).
  split; [exact Hnone|exact Hsome].
Defined.

(** C6 does not hold of [calculate_statistics]: on an empty population it
    divides by zero and returns no defined statistics. *)
Lemma statistics_of_empty_population :
  birds_ empty = [] ∧ eval calculate_statistics empty = None.
Proof. split; [done|]. by apply calculate_statistics_empty. Qed.

End SampleRuns.

(** * Further properties of the engine *)

(** ** The neighbour search *)

Section NeighbourSearch.
Context `{rules : Rules}.

Lemma never_its_own_neighbor (fl : Flock) (bird : Bird) :
  ¬ is_neighbor fl bird bird.
Proof. intros [[Hpos _] _]. rewrite magnitude_Vsub_diag in Hpos. lra. Qed.

Lemma filter_sublist_impl {A} (P Q : A → Prop) `{!∀ a, Decision (P a)}
    `{!∀ a, Decision (Q a)} (l : list A) :
  (∀ a, P a → Q a) → filter P l `sublist_of` filter Q l.
Proof.
  intros HPQ. induction l as [|a l IH]; [done|].
  rewrite !filter_cons. destruct (decide (P a)) as [HP|HP].
  - rewrite decide_True by auto. by constructor.
  - destruct (decide (Q a)); [by constructor|done].
Qed.

(** X1. The neighbours of a subject are agents of the population, in
    population order and each at most as often as it occurs there; there are
    at most as many as agents, and strictly fewer when the subject is one of
    the agents. *)
Theorem get_neighbors_sublist (fl : Flock) (subject : Bird) :
  eval (get_neighbors subject) fl `sublist_of` birds_ fl
  ∧ (length (eval (get_neighbors subject) fl) ≤ length (birds_ fl))%nat
  ∧ (subject ∈ birds_ fl →
     (length (eval (get_neighbors subject) fl) < length (birds_ fl))%nat).
Proof.
  rewrite eval_get_neighbors. split; [apply sublist_filter|].
  split; [apply length_filter|].
  intros Hin. eapply length_filter_lt; [done|]. apply never_its_own_neighbor.
Qed.

(** X2. Widening the interaction distance or the view angle never loses a
    neighbour: over the same population, the neighbours found with the
    smaller thresholds are among those found with the larger ones, in the
    same order. *)
Theorem get_neighbors_monotone (fl fl' : Flock) (subject : Bird) :
  birds_ fl = birds_ fl' →
  distance_ fl <= distance_ fl' →
  view_angle_ fl <= view_angle_ fl' →
  eval (get_neighbors subject) fl `sublist_of` eval (get_neighbors subject) fl'.
Proof.
  intros Hbirds Hd Hva. rewrite !eval_get_neighbors, Hbirds.
  apply filter_sublist_impl. unfold is_neighbor. intros candidate. lra.
Qed.

Lemma get_neighbors_blind (fl : Flock) (subject : Bird) :
  distance_ fl <= 0 → eval (get_neighbors subject) fl = [].
Proof.
  rewrite eval_get_neighbors. intros Hd.
  induction (birds_ fl) as [|candidate l IH]; [done|].
  rewrite filter_cons_False; [done|].
  unfold is_neighbor. lra.
Qed.

(** X3. With an interaction distance that is zero or negative nobody has a
    neighbour, and over an empty population neither. *)
Theorem get_neighbors_none (fl : Flock) (subject : Bird) :
  distance_ fl <= 0 ∨ birds_ fl = [] →
  eval (get_neighbors subject) fl = [].
Proof.
  intros [Hd|Hempty]; [by apply get_neighbors_blind|].
  by rewrite eval_get_neighbors, Hempty.
Qed.

End NeighbourSearch.

(** ** One step, further *)

Section StepFurther.
Context `{rules : Rules}.

Lemma same_configuration_refl (fl : Flock) : same_configuration fl fl.
Proof. by repeat split. Qed.

Lemma same_configuration_trans (fl1 fl2 fl3 : Flock) :
  same_configuration fl1 fl2 → same_configuration fl2 fl3 →
  same_configuration fl1 fl3.
Proof.
  unfold same_configuration.
  intros (?&?&?&?&?&?&?&?&?) (?&?&?&?&?&?&?&?&?).
  repeat split; congruence.
Qed.

Lemma evolve_predator_off (fl : Flock) :
  with_predator_ fl = false → exec evolve_predator fl = fl.
Proof. intros Hwp. by rewrite evolve_predator_run, Hwp. Qed.

Lemma evolve_keeps (fl : Flock) :
  same_configuration fl (exec evolve fl)
  ∧ length (birds_ (exec evolve fl)) = length (birds_ fl)
  ∧ (with_predator_ fl = false → predator_ (exec evolve fl) = predator_ fl).
Proof.
  destruct (evolve_run fl) as (Hev & Hlen & _).
  rewrite Hev, (evolve_predator_birds fl).
  split; [by repeat split|]. split; [done|].
  intros Hwp. cbn [predator_ set_birds_ set_predator_].
  by rewrite evolve_predator_off.
Qed.

(** X4. However many times [evolve] is called, the nine configuration fields
    keep their values and the population keeps its length; without a
    predator configured, [predator_] is never written either. *)
Theorem evolve_keeps_configuration (k : nat) (fl : Flock) :
  same_configuration fl (exec (steps k) fl)
  ∧ length (birds_ (exec (steps k) fl)) = length (birds_ fl)
  ∧ (with_predator_ fl = false → predator_ (exec (steps k) fl) = predator_ fl).
Proof.
  revert fl. induction k as [|k IH]; intros fl; cbn [steps].
  - rewrite exec_ret. split; [apply same_configuration_refl|done].
  - rewrite exec_bind.
    destruct (evolve_keeps fl) as (Hcfg & Hlen & Hpred).
    destruct (IH (exec evolve fl)) as (Hcfg' & Hlen' & Hpred').
    split; [by eapply same_configuration_trans|].
    split; [congruence|].
    intros Hwp. rewrite Hpred', Hpred; [done..|].
    destruct Hcfg as (_&_&_&_&_&Hwp'&_). congruence.
Qed.

(** The agent at index [i] when nothing is within its reach at its turn. *)
Lemma evolve_bird_unsteered (i : nat) (counter : Z) (fl : Flock) (bird : Bird) :
  birds_ fl !! i = Some bird →
  eval (get_neighbors bird) fl = [] →
  birds_ (exec (evolve_bird i counter) fl) !! i
  = Some (integrate (9 / 10)
      (avoid_boundaries
         (avoid_speeding
            (if with_predator_ fl then
               add_velocity
                 (avoid_predator (birds_ fl) bird counter (predator_ fl)
                    (separation_distance_ fl) (view_angle_ fl)) bird
             else bird) 5 2)
         (canvas_width_ fl) (canvas_height_ fl))).
Proof.
  intros Hi Hnone. rewrite eval_get_neighbors in Hnone.
  rewrite (evolve_bird_run _ _ _ _ Hi). cbn zeta. rewrite Hnone.
  cbn [length Nat.eqb negb birds_ set_birds_].
  rewrite list_lookup_insert_eq by by eapply lookup_lt_Some.
  by rewrite (list_insert_id _ _ _ Hi).
Qed.

(** X5. An agent that is alone in the population is never steered by
    separation, alignment or cohesion: one call of [evolve] adds the
    predator avoidance, if a predator is configured, then clamps the speed,
    applies the boundary rule and advances the position. *)
Theorem evolve_lone_agent (fl : Flock) (bird : Bird) :
  birds_ fl = [bird] →
  birds_ (exec evolve fl)
  = [integrate (9 / 10)
       (avoid_boundaries
          (avoid_speeding
             (if with_predator_ fl then
                add_velocity
                  (avoid_predator [bird] bird 0
                     (predator_ (exec evolve_predator fl))
                     (separation_distance_ fl) (view_angle_ fl)) bird
              else bird) 5 2)
          (canvas_width_ fl) (canvas_height_ fl))].
Proof.
  intros Hone. destruct (evolve_run fl) as (_ & Hlen & Hat).
  rewrite Hone in Hlen, Hat. cbn [length] in Hlen, Hat.
  specialize (Hat 0%nat ltac:(lia)). rewrite population_at_0 in Hat.
  change (Z.of_nat 0) with 0%Z in Hat.
  assert (Hbirds : birds_ (exec evolve_predator fl) = [bird])
    by by rewrite evolve_predator_birds.
  rewrite (evolve_bird_unsteered 0 0 _ bird) in Hat.
  - assert (Hcfg : same_configuration fl (exec evolve_predator fl))
      by (rewrite evolve_predator_birds; by repeat split).
    destruct Hcfg as (_&_&_&_&Hsd&Hwp&Hva&Hh&Hw).
    rewrite Hbirds, Hsd, Hwp, Hva, Hh, Hw in Hat.
    destruct (birds_ (exec evolve fl)) as [|b [|b' l]]; try done.
    cbn in Hat. by injection Hat as ->.
  - by rewrite Hbirds.
  - rewrite eval_get_neighbors, Hbirds.
    by rewrite filter_cons_False by apply never_its_own_neighbor.
Qed.

Lemma population_at_same_configuration (fl : Flock) (i : nat) :
  same_configuration fl (population_at fl i).
Proof. destruct (population_at_config fl i) as [birds ->]. by repeat split. Qed.

Lemma population_at_own_turn (fl : Flock) (i : nat) (bird : Bird) :
  birds_ fl !! i = Some bird → birds_ (population_at fl i) !! i = Some bird.
Proof.
  intros Hi. rewrite population_at_lookup by (apply lookup_lt_Some in Hi; lia).
  by rewrite decide_False by lia.
Qed.

(** X6. With an interaction distance that is zero or negative and no
    predator, one call of [evolve] is the same map over every agent: clamp
    the speed, apply the boundary rule, advance the position; no steering
    rule is consulted and the order of the in-place pass does not matter. *)
Theorem evolve_blind_flock (fl : Flock) :
  distance_ fl <= 0 →
  with_predator_ fl = false →
  exec evolve fl
  = set_birds_
      ((λ bird, integrate (9 / 10)
                  (avoid_boundaries (avoid_speeding bird 5 2)
                     (canvas_width_ fl) (canvas_height_ fl)))
       <$> birds_ fl) fl.
Proof.
  intros Hd Hwp. destruct (evolve_run fl) as (Hev & Hlen & Hat).
  rewrite Hev, (evolve_predator_off fl Hwp). f_equal.
  apply list_eq. intros i. rewrite list_lookup_fmap.
  destruct (birds_ fl !! i) as [bird|] eqn:Hi.
  - rewrite Hat by by eapply lookup_lt_Some.
    destruct (population_at_same_configuration fl i)
      as (_&_&_&Hd'&_&Hwp'&_&Hh&Hw).
    rewrite (evolve_bird_unsteered i _ _ bird).
    + by rewrite Hwp', Hwp, Hh, Hw.
    + by apply population_at_own_turn.
    + apply get_neighbors_blind. by rewrite Hd'.
  - apply lookup_ge_None. rewrite Hlen. by apply lookup_ge_None.
Qed.

(** X7. If the speed and boundary rules leave the position of the agent they
    are given alone, one call of [evolve] moves every agent by nine tenths
    of the velocity it ends the step with, and a configured predator by
    eight tenths of its own. *)
Theorem evolve_displacement (fl : Flock) (i : nat) (bird : Bird) :
  (∀ b max_speed min_speed,
     position (avoid_speeding b max_speed min_speed) = position b) →
  (∀ b width height, position (avoid_boundaries b width height) = position b) →
  birds_ fl !! i = Some bird →
  (∃ bird', birds_ (exec evolve fl) !! i = Some bird'
            ∧ position bird'
              = Vadd (position bird) (Vscale (velocity bird') (9 / 10)))
  ∧ (with_predator_ fl = true →
     position (predator_ (exec evolve fl))
     = Vadd (position (predator_ fl))
         (Vscale (velocity (predator_ (exec evolve fl))) (8 / 10))).
Proof.
  intros Hspeed Hbound Hi. split.
  - destruct (evolve_lookup fl i bird Hi) as (bird1 & population & Hpos & ->).
    eexists. split; [done|]. cbn [integrate position velocity].
    rewrite Hbound, Hspeed. by destruct (with_predator_ fl); cbn; rewrite Hpos.
  - intros Hwp. destruct (evolve_run fl) as (-> & _ & _).
    cbn [predator_ set_birds_]. rewrite evolve_predator_run, Hwp. cbn zeta.
    cbn [predator_ set_predator_ integrate position velocity].
    rewrite Hbound, Hspeed. by destruct (negb _).
Qed.

(** X8. A predator that finds no agent within its reach is not steered: one
    call of [evolve] clamps its speed with [15] and [2], applies the
    boundary rule and advances it by eight tenths of its velocity. *)
Theorem evolve_predator_alone (fl : Flock) :
  with_predator_ fl = true →
  eval (get_neighbors (predator_ fl)) fl = [] →
  predator_ (exec evolve fl)
  = integrate (8 / 10)
      (avoid_boundaries (avoid_speeding (predator_ fl) 15 2)
         (canvas_width_ fl) (canvas_height_ fl)).
Proof.
  intros Hwp Hnone. rewrite eval_get_neighbors in Hnone.
  destruct (evolve_run fl) as (-> & _ & _). cbn [predator_ set_birds_].
  rewrite evolve_predator_run, Hwp. cbn zeta. by rewrite Hnone.
Qed.

(** X9. The three steering rules are applied one after the other on the
    agent itself: alignment is computed from the velocity that separation
    has already changed, and cohesion from the velocity that both have
    changed.  The neighbours are those found in the population as it stands
    at the agent's turn. *)
Theorem steering_is_sequential (fl : Flock) (i : nat) (bird : Bird) :
  birds_ fl !! i = Some bird →
  with_predator_ fl = false →
  let neighbors := eval (get_neighbors bird) (population_at fl i) in
  neighbors ≠ [] →
  let bird_s :=
    add_velocity (apply_separation neighbors bird
                    (separation_distance_ fl) (separation_ fl)) bird in
  let bird_a :=
    add_velocity (apply_alignment neighbors bird_s (alignment_ fl)) bird_s in
  let bird_c :=
    add_velocity (apply_cohesion neighbors bird_a (cohesion_ fl)) bird_a in
  birds_ (exec evolve fl) !! i
  = Some (integrate (9 / 10)
            (avoid_boundaries (avoid_speeding bird_c 5 2)
               (canvas_width_ fl) (canvas_height_ fl))).
Proof.
  intros Hi Hwp neighbors Hsome bird_s bird_a bird_c.
  destruct (evolve_run fl) as (_ & _ & Hat).
  rewrite Hat by by eapply lookup_lt_Some.
  pose proof (population_at_own_turn fl i bird Hi) as Hpop.
  rewrite (evolve_bird_run _ _ _ _ Hpop). cbn zeta.
  rewrite <-eval_get_neighbors. fold neighbors.
  destruct (population_at_same_configuration fl i)
    as (Hs&Ha&Hc&_&Hsd&Hwp'&_&Hh&Hw).
  rewrite Hs, Ha, Hc, Hsd, Hwp', Hwp, Hh, Hw.
  destruct neighbors as [|n ns] eqn:Hn; [done|].
  cbn [length Nat.eqb negb birds_ set_birds_].
  by rewrite list_lookup_insert_eq by by eapply lookup_lt_Some.
Qed.

(** X17. On an empty population [evolve] does what [evolve_predator] does
    and nothing more: the loop over the agents has no iteration. *)
Theorem evolve_empty_population (fl : Flock) :
  birds_ fl = [] →
  exec evolve fl = exec evolve_predator fl
  ∧ birds_ (exec evolve fl) = [].
Proof.
  intros Hempty. destruct (evolve_run fl) as (Hev & Hlen & _).
  rewrite Hempty in Hlen. apply length_zero_iff_nil in Hlen.
  split; [|done]. rewrite Hev, Hlen.
  rewrite (evolve_predator_birds fl). unfold set_birds_, set_predator_.
  cbn [separation_ alignment_ cohesion_ distance_ separation_distance_
       with_predator_ view_angle_ canvas_height_ canvas_width_ birds_
       predator_].
  by rewrite Hempty.
Qed.

End StepFurther.

(** ** Statistics, further *)

Lemma Rsum_Permutation (l l' : list R) : l ≡ₚ l' → Rsum l = Rsum l'.
Proof.
  unfold Rsum. induction 1 as [|v l l' _ IH|v w l|l1 l2 l3 _ IH1 _ IH2]; cbn.
  - done.
  - by rewrite IH.
  - lra.
  - by rewrite IH1.
Qed.

Lemma arithmetic_mean_Permutation (l l' : list R) :
  l ≡ₚ l' → arithmetic_mean l = arithmetic_mean l'.
Proof.
  intros Hp. unfold arithmetic_mean.
  by rewrite (Rsum_Permutation _ _ Hp), (Permutation_length Hp).
Qed.

Lemma population_variance_Permutation (l l' : list R) :
  l ≡ₚ l' → population_variance l = population_variance l'.
Proof.
  intros Hp. unfold population_variance.
  rewrite (arithmetic_mean_Permutation _ _ Hp), (Permutation_length Hp).
  f_equal. apply Rsum_Permutation. by apply fmap_Permutation.
Qed.

(** X10. The statistics do not depend on the order of the agents: two
    populations that are permutations of each other have the same mean
    velocity and the same deviation. *)
Theorem statistics_ignore_order (fl fl' : Flock) :
  birds_ fl ≡ₚ birds_ fl' →
  eval calculate_statistics fl = eval calculate_statistics fl'.
Proof.
  intros Hp. destruct (decide (birds_ fl = [])) as [Hnil|Hne].
  - rewrite Hnil in Hp. apply Permutation_nil_l in Hp.
    by rewrite !calculate_statistics_empty.
  - assert (Hne' : birds_ fl' ≠ []).
    { intros Hnil. rewrite Hnil in Hp. by apply Permutation_nil_r in Hp. }
    rewrite !calculate_statistics_nonempty by done. cbn zeta.
    assert (Hx : (λ b, x (velocity b)) <$> birds_ fl
                 ≡ₚ (λ b, x (velocity b)) <$> birds_ fl')
      by by apply fmap_Permutation.
    assert (Hy : (λ b, y (velocity b)) <$> birds_ fl
                 ≡ₚ (λ b, y (velocity b)) <$> birds_ fl')
      by by apply fmap_Permutation.
    by rewrite (arithmetic_mean_Permutation _ _ Hx),
      (arithmetic_mean_Permutation _ _ Hy),
      (population_variance_Permutation _ _ Hx),
      (population_variance_Permutation _ _ Hy).
Qed.

Lemma Rsum_nonneg (l : list R) : (∀ v, v ∈ l → 0 <= v) → 0 <= Rsum l.
Proof.
  unfold Rsum. induction l as [|v l IH]; intros Hall; cbn; [lra|].
  pose proof (Hall v ltac:(by left)).
  pose proof (IH ltac:(intros; apply Hall; by right)). lra.
Qed.

Lemma population_variance_nonneg (l : list R) :
  l ≠ [] → 0 <= population_variance l.
Proof.
  intros Hne. unfold population_variance.
  apply Rmult_le_pos.
  - apply Rsum_nonneg. intros v (w & -> & _)%list_elem_of_fmap.
    apply Rle_0_sqr.
  - left. apply Rinv_0_lt_compat.
    destruct l; [done|]. apply lt_0_INR. cbn. lia.
Qed.

Lemma Rsum_squared_deviations (l : list R) (m : R) :
  Rsum ((λ v, (v - m) * (v - m)) <$> l)
  = Rsum ((λ v, v * v) <$> l) - 2 * m * Rsum l + INR (length l) * (m * m).
Proof.
  induction l as [|v l IH].
  - unfold Rsum; cbn. lra.
  - rewrite !fmap_cons. unfold Rsum in *. cbn [foldr length].
    rewrite IH, S_INR. lra.
Qed.

Lemma population_variance_mean_of_squares (l : list R) :
  l ≠ [] →
  population_variance l
  = arithmetic_mean ((λ v, v * v) <$> l)
    - arithmetic_mean l * arithmetic_mean l.
Proof.
  intros Hne. pose proof (INR_length_nonzero _ Hne) as Hn.
  unfold population_variance. rewrite Rsum_squared_deviations.
  unfold arithmetic_mean. rewrite length_fmap. by field.
Qed.

(** X11. On a non-empty population the two components of the deviation are
    not negative, and the square of each is the mean of the squares of that
    velocity component minus the square of its mean. *)
Theorem statistics_deviation_identity (fl : Flock) :
  birds_ fl ≠ [] →
  ∃ s, eval calculate_statistics fl = Some s
       ∧ 0 <= x (stdev_velocity s) ∧ 0 <= y (stdev_velocity s)
       ∧ x (stdev_velocity s) * x (stdev_velocity s)
         = arithmetic_mean ((λ b, x (velocity b) * x (velocity b)) <$> birds_ fl)
           - x (mean_velocity s) * x (mean_velocity s)
       ∧ y (stdev_velocity s) * y (stdev_velocity s)
         = arithmetic_mean ((λ b, y (velocity b) * y (velocity b)) <$> birds_ fl)
           - y (mean_velocity s) * y (mean_velocity s).
Proof.
  intros Hne. rewrite calculate_statistics_nonempty by done. cbn zeta.
  eexists. split; [done|]. cbn [stdev_velocity mean_velocity x y].
  assert (Hne' : ∀ f : Bird → R, f <$> birds_ fl ≠ []).
  { intros f. by destruct (birds_ fl). }
  split; [apply sqrt_pos|]. split; [apply sqrt_pos|].
  rewrite !sqrt_sqrt by by apply population_variance_nonneg.
  rewrite !population_variance_mean_of_squares by done.
  by rewrite <-!list_fmap_compose.
Qed.

(** X12. [calculate_statistics] returns defined statistics exactly on the
    non-empty populations. *)
Theorem statistics_defined_iff (fl : Flock) :
  is_Some (eval calculate_statistics fl) ↔ birds_ fl ≠ [].
Proof.
  split.
  - intros [s Hs] Hnil. by rewrite calculate_statistics_empty in Hs.
  - intros Hne. by rewrite calculate_statistics_nonempty.
Qed.

(** ** Construction, further *)

Section ConstructionFurther.
Context `{rules : Rules} `{random : Random}.

Lemma generate_n_Forall (P : Bird → Prop) (n : nat) (birds : list Bird)
    (f : Gen → Bird * Gen) (gen : Gen) :
  Forall P birds → (∀ g, P (f g).1) →
  Forall P (generate_n n birds f gen).1.
Proof.
  intros Hbirds Hf. revert birds gen Hbirds.
  induction n as [|n IH]; intros birds gen Hbirds; cbn; [done|].
  pose proof (Hf gen) as Hone. destruct (f gen) as [bird gen'].
  apply IH. apply Forall_app. split; [done|]. by constructor.
Qed.

Lemma random_bird_within (width height : R) (gen : Gen) :
  draws_within_bounds → 0 <= width → 0 <= height →
  let bird := (random_bird width height gen).1 in
  0 <= x (position bird) <= width ∧ 0 <= y (position bird) <= height
  ∧ -5 <= x (velocity bird) <= 5 ∧ -5 <= y (velocity bird) <= 5.
Proof.
  intros Hdraw Hw Hh. unfold random_bird.
  pose proof (Hdraw 0 width gen Hw) as H1.
  destruct (uniform_real_distribution 0 width gen) as [px g1].
  pose proof (Hdraw 0 height g1 Hh) as H2.
  destruct (uniform_real_distribution 0 height g1) as [py g2].
  pose proof (Hdraw (-5) 5 g2 ltac:(lra)) as H3.
  destruct (uniform_real_distribution (-5) 5 g2) as [vx g3].
  pose proof (Hdraw (-5) 5 g3 ltac:(lra)) as H4.
  destruct (uniform_real_distribution (-5) 5 g3) as [vy g4].
  cbn in *. tauto.
Qed.

(** X13. When every draw of the generator lies between its bounds and the
    canvas sides are not negative, construction puts every agent, and the
    predator when one is configured, inside the canvas, with both velocity
    components between [-5] and [5]. *)
Theorem Flock_new_within_canvas (o : FlockOptions) (gen : Gen) (fl : Flock) :
  draws_within_bounds →
  0 <= canvas_width o → 0 <= canvas_height o →
  Flock_new o gen = Constructed fl →
  let inside (bird : Bird) :=
    0 <= x (position bird) <= canvas_width_ fl
    ∧ 0 <= y (position bird) <= canvas_height_ fl
    ∧ -5 <= x (velocity bird) <= 5 ∧ -5 <= y (velocity bird) <= 5 in
  (∀ bird, bird ∈ birds_ fl → inside bird)
  ∧ (with_predator_ fl = true → inside (predator_ fl)).
Proof.
  intros Hdraw Hw Hh Hnew inside. subst inside.
  destruct (decide (valid_options o)) as [Hv|Hv].
  2:{ by rewrite Flock_new_invalid in Hnew. }
  rewrite Flock_new_valid in Hnew by done. injection Hnew as <-.
  cbn [birds_ predator_ with_predator_ canvas_width_ canvas_height_].
  split.
  - apply Forall_forall. apply generate_n_Forall; [by constructor|].
    intros g. by apply random_bird_within.
  - intros ->. by apply random_bird_within.
Qed.

(** X14. The initial population depends on the population size, the canvas
    and the generator only: two configurations that agree on these get the
    same agents from the same generator state, whatever their weights,
    distances, view angle and predator flag; the predator is drawn after the
    last agent. *)
Theorem Flock_new_population (o o' : FlockOptions) (gen : Gen)
    (fl fl' : Flock) :
  number o = number o' →
  canvas_width o = canvas_width o' →
  canvas_height o = canvas_height o' →
  Flock_new o gen = Constructed fl →
  Flock_new o' gen = Constructed fl' →
  birds_ fl = birds_ fl'
  ∧ (with_predator o = true →
     predator_ fl
     = (random_bird (canvas_width o) (canvas_height o)
          (generate_n (Z.to_nat (number o)) []
             (random_bird (canvas_width o) (canvas_height o)) gen).2).1).
Proof.
  intros Hn Hw Hh Hnew Hnew'.
  destruct (decide (valid_options o)) as [Hv|Hv].
  2:{ by rewrite Flock_new_invalid in Hnew. }
  destruct (decide (valid_options o')) as [Hv'|Hv'].
  2:{ by rewrite Flock_new_invalid in Hnew'. }
  rewrite Flock_new_valid in Hnew, Hnew' by done.
  injection Hnew as <-. injection Hnew' as <-. cbn [birds_ predator_].
  split; [by rewrite Hn, Hw, Hh|]. by intros ->.
Qed.

End ConstructionFurther.

(** ** Rendering *)

Section RenderingFacts.
Context `{rules : Rules}.

(** The loop of [draw] returns the state it was given and appends one
    triangle for every agent from index [i] on. *)
Lemma draw_birds_run (n i : nat) (tri : CircleShape) (window : RenderWindow)
    (fl : Flock) :
  (i + n)%nat = length (birds_ fl) →
  ∃ tri',
    draw_birds n i tri window fl
    = ((tri',
        window ++
        ((λ bird, setPosition (mkVector2 (Bird_x bird) (Bird_y bird))
                    (setRotation (draw_angle bird) tri))
         <$> drop i (birds_ fl))), fl).
Proof.
  revert i tri window. induction n as [|n IH]; intros i tri window Hlen.
  - exists tri. cbn [draw_birds]. rewrite drop_ge by lia. cbn.
    by rewrite app_nil_r.
  - cbn [draw_birds]. run_state.
    destruct (birds_ fl !! i) as [bird|] eqn:Hi.
    2:{ apply lookup_ge_None in Hi. lia. }
    destruct (IH (S i)
                (setPosition (mkVector2 (Bird_x bird) (Bird_y bird))
                   (setRotation (draw_angle bird) tri))
                (window ++
                 [setPosition (mkVector2 (Bird_x bird) (Bird_y bird))
                    (setRotation (draw_angle bird) tri)]) ltac:(lia))
      as [tri' Hrun].
    exists tri'. rewrite Hrun.
    by rewrite (drop_S _ _ _ Hi), fmap_cons, <-app_assoc.
Qed.

Lemma draw_run (window : RenderWindow) (fl : Flock) :
  draw window fl
  = (window
     ++ ((λ bird, mkCircleShape 6 3 Black (mkVector2 3 3) (draw_angle bird)
                    (mkVector2 (Bird_x bird) (Bird_y bird))) <$> birds_ fl)
     ++ (if with_predator_ fl then
           [mkCircleShape 8 3 Red (mkVector2 4 4) 0
              (mkVector2 (Bird_x (predator_ fl)) (Bird_y (predator_ fl)))]
         else []),
     fl).
Proof.
  unfold draw. cbn zeta. run_state.
  destruct (draw_birds_run (length (birds_ fl)) 0
              (setOrigin (mkVector2 3 3)
                 (setFillColor Black (CircleShape_new 6 3))) window fl
              ltac:(done)) as [tri' ->].
  rewrite drop_0. destruct (with_predator_ fl).
  - by rewrite <-app_assoc.
  - by rewrite app_nil_r.
Qed.

(** X15. [draw] changes nothing in the engine and nothing that is already
    in the window: it appends one shape for every agent and, when a predator
    is configured, one more. *)
Theorem draw_appends_shapes (window : RenderWindow) (fl : Flock) :
  exec (draw window) fl = fl
  ∧ ∃ shapes,
      eval (draw window) fl = window ++ shapes
      ∧ length shapes
        = (length (birds_ fl) + (if with_predator_ fl then 1 else 0))%nat.
Proof.
  unfold exec, eval. rewrite draw_run. split; [done|].
  unfold RenderWindow in *. eexists. split; [done|].
  rewrite length_app, length_fmap. by destruct (with_predator_ fl).
Qed.

(** X16. The shape that [draw] appends for the agent at index [i] is the
    [i]-th of the appended ones: a black triangle of radius [6] with origin
    [(3, 3)], at the agent's position, turned by the angle computed from the
    agent's velocity.  The predator's shape comes after all of them: a red
    triangle of radius [8] with origin [(4, 4)], at the predator's position
    and not turned. *)
Theorem draw_places_agents (window : RenderWindow) (fl : Flock) (i : nat)
    (bird : Bird) :
  birds_ fl !! i = Some bird →
  eval (draw window) fl !! (length window + i)%nat
  = Some (mkCircleShape 6 3 Black (mkVector2 3 3) (draw_angle bird)
            (mkVector2 (x (position bird)) (y (position bird))))
  ∧ (with_predator_ fl = true →
     eval (draw window) fl !! (length window + length (birds_ fl))%nat
     = Some (mkCircleShape 8 3 Red (mkVector2 4 4) 0
               (mkVector2 (x (position (predator_ fl)))
                          (y (position (predator_ fl)))))).
Proof.
  intros Hi. unfold eval. rewrite draw_run. cbn [fst].
  unfold RenderWindow in *. split.
  - rewrite lookup_app_r by lia.
    replace (length window + i - length window)%nat with i by lia.
    rewrite lookup_app_l
      by (rewrite length_fmap; by eapply lookup_lt_Some).
    by rewrite list_lookup_fmap, Hi.
  - intros ->. rewrite lookup_app_r by lia.
    replace (length window + length (birds_ fl) - length window)%nat
      with (length (birds_ fl)) by lia.
    rewrite lookup_app_r by (rewrite length_fmap; lia).
    by rewrite length_fmap, Nat.sub_diag.
Qed.

End RenderingFacts.

(** ** The further properties on the sample data *)

Section FurtherSampleRuns.
Import Samples.
#[local] Existing Instance SpecRules.rules.
#[local] Existing Instance midpoint_random.

Lemma avoid_speeding_keeps_position (b : Bird) (max_speed min_speed : R) :
  position (SpecRules.avoid_speeding b max_speed min_speed) = position b.
Proof.
  unfold SpecRules.avoid_speeding.
  repeat (case_bool_decide; cbn [andb position]); done.
Qed.

Lemma avoid_boundaries_keeps_position (b : Bird) (width height : R) :
  position (SpecRules.avoid_boundaries b width height) = position b.
Proof. done. Qed.

Lemma midpoint_draws_within_bounds : draws_within_bounds.
Proof. intros a b gen Hab. cbn. lra. Qed.

Lemma Flock_new_sample_hunted :
  Flock_new options_hunted 0%nat = Constructed constructed_hunted.
Proof.
  rewrite Flock_new_valid; [done|].
  unfold valid_options; cbn. repeat split; lia || lra.
Qed.

Lemma get_neighbors_monotone_witness :
  birds_ pair = birds_ pair_wide
  ∧ distance_ pair <= distance_ pair_wide
  ∧ view_angle_ pair <= view_angle_ pair_wide
  ∧ eval (get_neighbors bird1) pair
    `sublist_of` eval (get_neighbors bird1) pair_wide.
Proof.
  assert (Hd : distance_ pair <= distance_ pair_wide) by (cbn; lra).
  assert (Hva : view_angle_ pair <= view_angle_ pair_wide) by (cbn; lra).
  split; [reflexivity|]. split; [exact Hd|]. split; [exact Hva|].
  exact (get_neighbors_monotone pair pair_wide bird1 eq_refl Hd Hva).
Defined.

Lemma get_neighbors_none_witness :
  (distance_ pair_blind <= 0 ∨ birds_ pair_blind = [])
  ∧ eval (get_neighbors bird1) pair_blind = [].
Proof.
  assert (Hd : distance_ pair_blind <= 0 ∨ birds_ pair_blind = [])
    by (left; cbn; lra).
  split; [exact Hd|]. exact (get_neighbors_none pair_blind bird1 Hd).
Defined.

Lemma evolve_lone_agent_witness :
  birds_ lone = [bird0]
  ∧ birds_ (exec evolve lone)
    = [integrate (9 / 10)
         (avoid_boundaries (avoid_speeding bird0 5 2) 1000 1000)].
Proof.
  split; [reflexivity|]. exact (evolve_lone_agent lone bird0 eq_refl).
Defined.

Lemma evolve_blind_flock_witness :
  distance_ pair_blind <= 0
  ∧ with_predator_ pair_blind = false
  ∧ exec evolve pair_blind
    = set_birds_
        [integrate (9 / 10)
           (avoid_boundaries (avoid_speeding bird0 5 2) 1000 1000);
         integrate (9 / 10)
           (avoid_boundaries (avoid_speeding bird1 5 2) 1000 1000)]
        pair_blind.
Proof.
  assert (Hd : distance_ pair_blind <= 0) by (cbn; lra).
  split; [exact Hd|]. split; [reflexivity|].
  exact (evolve_blind_flock pair_blind Hd eq_refl).
Defined.

Lemma evolve_displacement_witness :
  (∀ b max_speed min_speed,
     position (avoid_speeding b max_speed min_speed) = position b)
  ∧ (∀ b width height,
       position (avoid_boundaries b width height) = position b)
  ∧ birds_ pair !! 0%nat = Some bird0
  ∧ ∃ bird', birds_ (exec evolve pair) !! 0%nat = Some bird'
             ∧ position bird'
               = Vadd (position bird0) (Vscale (velocity bird') (9 / 10)).
Proof.
  split; [exact avoid_speeding_keeps_position|].
  split; [exact avoid_boundaries_keeps_position|].
  split; [reflexivity|].
  exact (proj1 (evolve_displacement pair 0 bird0
                  avoid_speeding_keeps_position
                  avoid_boundaries_keeps_position eq_refl)).
Defined.

Lemma evolve_predator_alone_witness :
  with_predator_ hunted_blind = true
  ∧ eval (get_neighbors (predator_ hunted_blind)) hunted_blind = []
  ∧ predator_ (exec evolve hunted_blind)
    = integrate (8 / 10)
        (avoid_boundaries (avoid_speeding (predator_ hunted_blind) 15 2)
           1000 1000).
Proof.
  assert (Hnone : eval (get_neighbors (predator_ hunted_blind)) hunted_blind
                  = [])
    by (apply get_neighbors_blind; cbn; lra).
  split; [reflexivity|]. split; [exact Hnone|].
  exact (evolve_predator_alone hunted_blind eq_refl Hnone).
Defined.

Lemma bird1_leads_pair_swapped :
  eval (get_neighbors bird1) (population_at pair_swapped 0) ≠ [].
Proof.
  rewrite population_at_0, evolve_predator_off by done.
  rewrite eval_get_neighbors. cbn [birds_ pair_swapped].
  rewrite filter_cons_False by apply never_its_own_neighbor.
  by rewrite filter_cons_True by by apply bird1_sees_bird0.
Qed.

Lemma steering_is_sequential_witness :
  birds_ pair_swapped !! 0%nat = Some bird1
  ∧ with_predator_ pair_swapped = false
  ∧ eval (get_neighbors bird1) (population_at pair_swapped 0) ≠ []
  ∧ is_Some (birds_ (exec evolve pair_swapped) !! 0%nat).
Proof.
  split; [reflexivity|]. split; [reflexivity|].
  split; [exact bird1_leads_pair_swapped|].
  rewrite (steering_is_sequential pair_swapped 0 bird1 eq_refl eq_refl
             bird1_leads_pair_swapped).
  eexists. reflexivity.
Defined.

Lemma statistics_ignore_order_witness :
  birds_ pair ≡ₚ birds_ pair_swapped
  ∧ eval calculate_statistics pair = eval calculate_statistics pair_swapped.
Proof.
  assert (Hp : birds_ pair ≡ₚ birds_ pair_swapped) by apply perm_swap.
  split; [exact Hp|]. exact (statistics_ignore_order pair pair_swapped Hp).
Defined.

Lemma statistics_deviation_identity_witness :
  birds_ pair ≠ []
  ∧ ∃ s, eval calculate_statistics pair = Some s
         ∧ 0 <= x (stdev_velocity s) ∧ 0 <= y (stdev_velocity s).
Proof.
  assert (Hne : birds_ pair ≠ []) by discriminate.
  split; [exact Hne|].
  destruct (statistics_deviation_identity pair Hne) as (s & Hs & Hx & Hy & _).
  exists s. split; [exact Hs|]. split; [exact Hx|exact Hy].
Defined.

Lemma Flock_new_within_canvas_witness :
  draws_within_bounds
  ∧ 0 <= canvas_width (options 2) ∧ 0 <= canvas_height (options 2)
  ∧ Flock_new (options 2) 0%nat = Constructed constructed
  ∧ ∀ bird, bird ∈ birds_ constructed →
      0 <= x (position bird) <= 1000 ∧ 0 <= y (position bird) <= 1000
      ∧ -5 <= x (velocity bird) <= 5 ∧ -5 <= y (velocity bird) <= 5.
Proof.
  assert (Hw : 0 <= canvas_width (options 2)) by (cbn; lra).
  assert (Hh : 0 <= canvas_height (options 2)) by (cbn; lra).
  split; [exact midpoint_draws_within_bounds|].
  split; [exact Hw|]. split; [exact Hh|]. split; [exact Flock_new_sample|].
  exact (proj1 (Flock_new_within_canvas (options 2) 0%nat constructed
                  midpoint_draws_within_bounds Hw Hh Flock_new_sample)).
Defined.

Lemma Flock_new_population_witness :
  number (options 2) = number options_hunted
  ∧ canvas_width (options 2) = canvas_width options_hunted
  ∧ canvas_height (options 2) = canvas_height options_hunted
  ∧ Flock_new (options 2) 0%nat = Constructed constructed
  ∧ Flock_new options_hunted 0%nat = Constructed constructed_hunted
  ∧ birds_ constructed = birds_ constructed_hunted.
Proof.
  split; [reflexivity|]. split; [reflexivity|]. split; [reflexivity|].
  split; [exact Flock_new_sample|]. split; [exact Flock_new_sample_hunted|].
  exact (proj1 (Flock_new_population (options 2) options_hunted 0%nat
                  constructed constructed_hunted eq_refl eq_refl eq_refl
                  Flock_new_sample Flock_new_sample_hunted)).
Defined.

Lemma draw_places_agents_witness :
  birds_ pair !! 1%nat = Some bird1
  ∧ eval (draw []) pair !! 1%nat
    = Some (mkCircleShape 6 3 Black (mkVector2 3 3) (draw_angle bird1)
              (mkVector2 509 500)).
Proof.
  split; [reflexivity|].
  exact (proj1 (draw_places_agents [] pair 1 bird1 eq_refl)).
Defined.

Lemma evolve_empty_population_witness :
  birds_ empty = []
  ∧ exec evolve empty = exec evolve_predator empty
  ∧ birds_ (exec evolve empty) = [].
Proof.
  split; [reflexivity|]. exact (evolve_empty_population empty eq_refl).
Defined.

End FurtherSampleRuns.
